(** * Diagnostics.h: the date-named, three-channel file logger

    A shallow embedding of [src/system/Diagnostics.h] (classes [TimeManager]
    and [Logger]) and of the call site in [src/program.cpp].

    The program is all effects: it reads the wall clock, creates a
    directory, opens three [std::ofstream]s in append mode, inserts text
    in them and prints diagnostics on [std::cerr].  The embedding keeps an
    explicit [World] (file system, clock, standard error) and the three
    stream members of the [Logger] object, threaded by a small state and
    exception monad.  The C and C++ library calls the source makes
    ([time], [localtime], [strftime], [fs::create_directories],
    [ofstream::open], ...) are modelled by their documented behaviour.
    Class [Color] holds five string constants that nothing reads; it has
    no part in the embedding. *)

From stdpp Require Import gmap strings list.
From Stdlib Require Import ZArith Lia Ascii String.

Local Open Scope string_scope.
Local Open Scope Z_scope.

(* ===================================================================== *)
(** ** C library: broken-down time and [strftime] *)
(* ===================================================================== *)

Module CTime.

(** [time_t]: seconds since 1970-01-01 00:00:00 UTC. *)
Abbreviation time_t := Z (only parsing).

(** [struct tm], with the fields the two format strings read. *)
Record tm : Type := mk_tm {
  tm_sec  : Z;   (* 0..60 *)
  tm_min  : Z;   (* 0..59 *)
  tm_hour : Z;   (* 0..23 *)
  tm_mday : Z;   (* 1..31 *)
  tm_mon  : Z;   (* months since January, 0..11 *)
  tm_year : Z    (* years since 1900 *)
}.

(** Day number (days since 1970-01-01) to a proleptic Gregorian date.
    The count is shifted to 0000-03-01 so that the leap day closes each
    four-year, hundred-year and four-hundred-year cycle. *)
Definition civil_from_days (days : Z) : Z * Z * Z :=
  let z    := days + 719468 in
  let n400 := z / 146097 in
  let d1   := z mod 146097 in
  let n100 := Z.min (d1 / 36524) 3 in
  let d2   := d1 - 36524 * n100 in
  let n4   := d2 / 1461 in
  let d3   := d2 mod 1461 in
  let n1   := Z.min (d3 / 365) 3 in
  let doy  := d3 - 365 * n1 in
  let y0   := 400 * n400 + 100 * n100 + 4 * n4 + n1 in
  let mp   := (5 * doy + 2) / 153 in
  let mday := doy - (153 * mp + 2) / 5 + 1 in
  let mon  := if mp <? 10 then mp + 3 else mp - 9 in
  let year := if mon <=? 2 then y0 + 1 else y0 in
  (year, mon, mday).

(** [gmtime]: the broken-down UTC time of an instant. *)
Definition gmtime (t : time_t) : tm :=
  let days := t / 86400 in
  let rem  := t mod 86400 in
  let '(year, mon, mday) := civil_from_days days in
  {| tm_sec := rem mod 60;
     tm_min := (rem / 60) mod 60;
     tm_hour := rem / 3600;
     tm_mday := mday;
     tm_mon := mon - 1;
     tm_year := year - 1900 |}.

(** [localtime]: the zone rules give the offset from UTC (seconds east)
    in force at the instant; the fields are those of the shifted instant.
    The fields are unbounded integers here.  The C library's [localtime]
    returns a null pointer when the year, counted from 1900, does not fit
    the [int] field [tm_year], and the source dereferences the result
    unchecked; [localtime_defined] below says where the call succeeds, and
    the statements about the text of a reading are made there. *)
Definition localtime (utc_offset : time_t -> Z) (t : time_t) : tm :=
  gmtime (t + utc_offset t).

(** Decimal digits. *)
Definition digit_char (d : Z) : ascii :=
  ascii_of_nat (48 + Z.to_nat d).

Fixpoint dec_digits (fuel : nat) (n : Z) (acc : string) : string :=
  let acc' := String (digit_char (n mod 10)) acc in
  match fuel with
  | O => acc'
  | S fuel' => if n <? 10 then acc' else dec_digits fuel' (n / 10) acc'
  end.

(** A non-negative number in decimal, no padding. *)
Definition dec_nonneg (n : Z) : string :=
  dec_digits (Z.to_nat (Z.log2 n)) n "".

(** [%d]-style printing: a minus sign for negative numbers. *)
Definition dec (n : Z) : string :=
  if n <? 0 then String "-" (dec_nonneg (- n)) else dec_nonneg n.

(** [%02d]-style printing, as [%m %d %H %M %S] do. *)
Definition dec02 (n : Z) : string :=
  if (0 <=? n) && (n <? 10) then String "0" (dec n) else dec n.

(** One conversion specification.  The program uses [Y m d H M S]; any
    other character after [%] is copied through uninterpreted. *)
Definition conversion (c : ascii) (t : tm) : string :=
  if Ascii.eqb c "Y" then dec (tm_year t + 1900)
  else if Ascii.eqb c "m" then dec02 (tm_mon t + 1)
  else if Ascii.eqb c "d" then dec02 (tm_mday t)
  else if Ascii.eqb c "H" then dec02 (tm_hour t)
  else if Ascii.eqb c "M" then dec02 (tm_min t)
  else if Ascii.eqb c "S" then dec02 (tm_sec t)
  else String "%" (String c "").

(** The text [strftime] builds from a format: ordinary characters are
    copied, [%x] is converted. *)
Fixpoint strftime_text (fmt : string) (t : tm) : string :=
  match fmt with
  | "" => ""
  | String c rest =>
      if Ascii.eqb c "%" then
        match rest with
        | "" => String c ""
        | String x rest' => conversion x t ++ strftime_text rest' t
        end
      else String c (strftime_text rest t)
  end.

(** [strftime(buffer, maxsize, fmt, &tm)]: the text is stored when it
    fits with its terminating NUL; otherwise the call returns 0 and the
    buffer holds nothing usable. *)
Definition strftime (maxsize : nat) (fmt : string) (t : tm) : option string :=
  let s := strftime_text fmt t in
  if decide (String.length s < maxsize)%nat then Some s else None.

(** [string(buffer)] after the call.  Where the text did not fit the C
    standard leaves the buffer unspecified; the model reads it as empty
    ([strftime_date_fits] and [strftime_time_fits] below show when the 80
    bytes of the source suffice). *)
Definition buffer_string (r : option string) : string :=
  match r with Some s => s | None => "" end.

End CTime.
Export CTime.


(* ===================================================================== *)
(** ** The world the logger runs in *)
(* ===================================================================== *)

(** [fs::path], absolute: the components below the root directory.
    [fs::current_path()] is absolute, and every path of the program is
    built from it. *)
Abbreviation path := (list string) (only parsing).

(** [p / name] for a one-component relative [name]. *)
Definition path_div (p : path) (name : string) : path := (p ++ [name])%list.
Infix "/:" := path_div (at level 40, left associativity).

(** [p.parent_path()]; the root is its own parent. *)
Definition parent_path (p : path) : path := removelast p.

(** [p.string()] on a POSIX system. *)
Fixpoint path_string_aux (p : path) : string :=
  match p with
  | [] => ""
  | c :: p' => String "/" (c ++ path_string_aux p')
  end.

Definition path_string (p : path) : string :=
  match p with [] => "/" | _ => path_string_aux p end.

Definition dquote : ascii := ascii_of_nat 34.
Definition backslash : ascii := ascii_of_nat 92.
Definition newline : string := String (ascii_of_nat 10) "".

(** [std::quoted]: the text between double quotes, with a backslash put
    before each double quote and backslash.  [operator<<] on an [fs::path]
    prints the path this way. *)
Fixpoint quoted_body (s : string) : string :=
  match s with
  | "" => String dquote ""
  | String c s' =>
      if Ascii.eqb c dquote || Ascii.eqb c backslash
      then String backslash (String c (quoted_body s'))
      else String c (quoted_body s')
  end.

Definition quoted (s : string) : string := String dquote (quoted_body s).

(** What a path names. *)
Inductive node : Type :=
  | Dir
  | File (content : string).

(** The part of the machine the logger can observe or change. *)
Record World : Type := mk_World {
  cwd : path;                    (* fs::current_path() *)
  fs : gmap (list string) node;  (* what exists below the root *)
  may_mkdir : path -> bool;      (* does the system let us create this directory *)
  may_open : path -> bool;       (* does the system let us open this file for appending *)
  clock : nat -> time_t;         (* the instant the n-th call of time() returns *)
  ticks : nat;                   (* calls of time() so far *)
  utc_offset : time_t -> Z;      (* the zone rules localtime applies *)
  cerr : list string             (* the lines put on std::cerr, oldest first *)
}.

(** The root always exists and is a directory. *)
Definition node_at (w : World) (p : path) : option node :=
  match p with
  | [] => Some Dir
  | _ => fs w !! p
  end.

(** The content of the file at [p], if [p] names a file. *)
Definition file_content (w : World) (p : path) : option string :=
  match fs w !! p with
  | Some (File c) => Some c
  | _ => None
  end.

(** [std::ofstream]: the file it is associated with when open, and the
    [failbit] of its state. *)
Record ofstream : Type := mk_ofstream {
  assoc : option (list string);
  failbit : bool
}.

Definition ofstream_default : ofstream := {| assoc := None; failbit := false |}.

Definition is_open (s : ofstream) : bool :=
  match assoc s with Some _ => true | None => false end.

(** The data members of [Logger] that carry state ([timeManager] and
    [colors] have none). *)
Record Logger : Type := mk_Logger {
  logFile : ofstream;
  warningLogFile : ofstream;
  errorLogFile : ofstream
}.

(** The three channels, named by the member that serves them. *)
Inductive channel : Type := Info | Warning | Error.

Definition member (c : channel) (l : Logger) : ofstream :=
  match c with
  | Info => logFile l
  | Warning => warningLogFile l
  | Error => errorLogFile l
  end.

Definition set_member (c : channel) (s : ofstream) (l : Logger) : Logger :=
  match c with
  | Info => {| logFile := s; warningLogFile := warningLogFile l; errorLogFile := errorLogFile l |}
  | Warning => {| logFile := logFile l; warningLogFile := s; errorLogFile := errorLogFile l |}
  | Error => {| logFile := logFile l; warningLogFile := warningLogFile l; errorLogFile := s |}
  end.

(** A [Logger] object in its world. *)
Record State : Type := mk_State {
  self : Logger;
  world : World
}.

(** The members before the constructor body runs. *)
Definition Logger_members_default : Logger :=
  {| logFile := ofstream_default;
     warningLogFile := ofstream_default;
     errorLogFile := ofstream_default |}.

Definition fresh (w : World) : State :=
  {| self := Logger_members_default; world := w |}.

(* ===================================================================== *)
(** ** State and exception monad *)
(* ===================================================================== *)

(** [std::filesystem::filesystem_error], the one exception in play. *)
Inductive exn : Type :=
  | filesystem_error (what : string) (p : list string).

Inductive outcome (A : Type) : Type :=
  | Returned (a : A) (st : State)
  | Thrown (e : exn) (st : State).
Arguments Returned {A} a st.
Arguments Thrown {A} e st.

Definition M (A : Type) : Type := State -> outcome A.

Definition ret {A} (a : A) : M A := fun st => Returned a st.

Definition bind {A B} (m : M A) (k : A -> M B) : M B :=
  fun st =>
    match m st with
    | Returned a st' => k a st'
    | Thrown e st' => Thrown e st'
    end.

Definition throw {A} (e : exn) : M A := fun st => Thrown e st.

Definition get_world : M World := fun st => Returned (world st) st.

Definition modify_world (f : World -> World) : M unit :=
  fun st => Returned tt {| self := self st; world := f (world st) |}.

Definition get_member (c : channel) : M ofstream :=
  fun st => Returned (member c (self st)) st.

Definition put_member (c : channel) (s : ofstream) : M unit :=
  fun st => Returned tt {| self := set_member c s (self st); world := world st |}.

Declare Scope logger_scope.
Delimit Scope logger_scope with logger.
Notation "x <- m ;; k" := (bind m (fun x => k))
  (at level 100, m at next level, right associativity) : logger_scope.
Notation "m ;; k" := (bind m (fun _ => k))
  (at level 100, right associativity) : logger_scope.
Local Open Scope logger_scope.

Definition when (b : bool) (m : M unit) : M unit :=
  if b then m else ret tt.

(** The state an outcome ends in, and whether it is a normal return. *)
Definition final {A} (o : outcome A) : State :=
  match o with Returned _ st => st | Thrown _ st => st end.

Definition returns {A} (o : outcome A) : bool :=
  match o with Returned _ _ => true | Thrown _ _ => false end.

(* ===================================================================== *)
(** ** Library calls *)
(* ===================================================================== *)

(** [time(NULL)]: one reading of the clock. *)
Definition tick (w : World) : World :=
  {| cwd := cwd w; fs := fs w; may_mkdir := may_mkdir w; may_open := may_open w;
     clock := clock w; ticks := S (ticks w); utc_offset := utc_offset w;
     cerr := cerr w |}.

Definition time_now : M time_t :=
  w <- get_world ;;
  modify_world tick ;;
  ret (clock w (ticks w)).

(** [*localtime(&timestamp)] in the zone of the process. *)
Definition localtime_now (timestamp : time_t) : M tm :=
  w <- get_world ;;
  ret (localtime (utc_offset w) timestamp).

Definition set_fs (f : gmap (list string) node) (w : World) : World :=
  {| cwd := cwd w; fs := f; may_mkdir := may_mkdir w; may_open := may_open w;
     clock := clock w; ticks := ticks w; utc_offset := utc_offset w;
     cerr := cerr w |}.

(** [std::cerr << ... << endl], one statement of the source: the inserted
    text, then the end of the line. *)
Definition add_cerr (text : string) (w : World) : World :=
  {| cwd := cwd w; fs := fs w; may_mkdir := may_mkdir w; may_open := may_open w;
     clock := clock w; ticks := ticks w; utc_offset := utc_offset w;
     cerr := (cerr w ++ [text])%list |}.

Definition cerr_line (text : string) : M unit :=
  modify_world (add_cerr text).

(** [fs::current_path()], where the working directory exists
    ([cwd_exists] below).  Where it has been removed the library call
    throws; the model has no such case, and a statement that construction
    returns is made where the working directory exists. *)
Definition fs_current_path : M (list string) :=
  w <- get_world ;; ret (cwd w).

(** The walk of [fs::create_directories] down from the root: keep what is
    a directory, create what is missing, throw where a component is a file
    or may not be created.  [base] is the directory reached so far. *)
Fixpoint create_directories_from (base : list string) (rest : list string) : M unit :=
  match rest with
  | [] => ret tt
  | c :: rest' =>
      let p := base /: c in
      w <- get_world ;;
      match fs w !! p with
      | Some Dir => create_directories_from p rest'
      | Some (File _) => throw (filesystem_error "Not a directory" p)
      | None =>
          if may_mkdir w p
          then modify_world (set_fs (<[p := Dir]> (fs w))) ;;
               create_directories_from p rest'
          else throw (filesystem_error "Permission denied" p)
      end
  end.

(** [fs::create_directories(p)], the throwing overload: nothing to do when
    [p] is a directory already; otherwise the missing directories are
    created from the top.  The source discards the returned flag. *)
Definition fs_create_directories (p : list string) : M unit :=
  w <- get_world ;;
  match node_at w p with
  | Some Dir => ret tt
  | _ => create_directories_from [] p
  end.

Definition is_dir (o : option node) : bool :=
  match o with Some Dir => true | _ => false end.

(** Whether the system opens [p] for appending: its directory exists, it
    is not itself a directory, and the system grants the access. *)
Definition can_open (w : World) (p : list string) : bool :=
  is_dir (node_at w (parent_path p)) && negb (is_dir (node_at w p)) && may_open w p.

(** Opening for appending creates a missing file empty and leaves an
    existing one as it is. *)
Definition touch (p : list string) (w : World) : World :=
  match fs w !! p with
  | Some _ => w
  | None => set_fs (<[p := File ""]> (fs w)) w
  end.

(** [s.open(p, ios::app)]: fails on a stream that is already open or when
    the file cannot be opened, and then sets [failbit]; on success the
    stream is associated with the file and its state is cleared. *)
Definition ofstream_open (c : channel) (p : list string) : M unit :=
  s <- get_member c ;;
  w <- get_world ;;
  if is_open s then put_member c {| assoc := assoc s; failbit := true |}
  else if can_open w p then
    modify_world (touch p) ;;
    put_member c {| assoc := Some p; failbit := false |}
  else put_member c {| assoc := None; failbit := true |}.

(** [s.is_open()]. *)
Definition ofstream_is_open (c : channel) : M bool :=
  s <- get_member c ;; ret (is_open s).

(** Appending to the file a path names; a path that names no file is left
    alone. *)
Definition append_to (p : list string) (text : string) (w : World) : World :=
  match fs w !! p with
  | Some (File content) => set_fs (<[p := File (content ++ text)]> (fs w)) w
  | _ => w
  end.

(** [s << text]: on an open stream in a good state the text goes to the
    end of the file (append mode); a stream in a failed state outputs
    nothing, and inserting in a stream that is not open fails.  The
    stream's buffer is not modelled: the content of a file is what it
    holds once the stream is flushed, as [close] does at the latest. *)
Definition ofstream_insert (c : channel) (text : string) : M unit :=
  s <- get_member c ;;
  match assoc s with
  | Some p => if failbit s then ret tt else modify_world (append_to p text)
  | None => put_member c {| assoc := None; failbit := true |}
  end.

(** [s.close()]: ends the association; closing a stream that is not open
    fails. *)
Definition ofstream_close (c : channel) : M unit :=
  s <- get_member c ;;
  match assoc s with
  | Some _ => put_member c {| assoc := None; failbit := failbit s |}
  | None => put_member c {| assoc := None; failbit := true |}
  end.

(* ===================================================================== *)
(** ** class TimeManager *)
(* ===================================================================== *)

Definition date_format : string := "%Y-%m-%d".
Definition time_format : string := "%H:%M:%S".

(** The text of an instant under zone rules, as the two methods format it. *)
Definition format_instant (fmt : string) (zone : time_t -> Z) (timestamp : time_t) : string :=
  buffer_string (strftime 80 fmt (localtime zone timestamp)).

Definition currentDateFormatted : M string :=
  timestamp <- time_now ;;
  datetime <- localtime_now timestamp ;;
  ret (buffer_string (strftime 80 date_format datetime)).

Definition currentTimeFormatted : M string :=
  timestamp <- time_now ;;
  datetime <- localtime_now timestamp ;;
  ret (buffer_string (strftime 80 time_format datetime)).

(* ===================================================================== *)
(** ** class Logger *)
(* ===================================================================== *)

(** The diagnostic each write method prints when its stream is not open. *)
Definition not_open_message (c : channel) : string :=
  match c with
  | Info => "Error: log file is not open."
  | Warning => "Error: warning log file is not open."
  | Error => "Error: error log file is not open."
  end.

(** [write], [writeWarning] and [writeError] have one body, over their own
    stream member and their own diagnostic. *)
Definition write_on (c : channel) (message : string) : M unit :=
  open <- ofstream_is_open c ;;
  if open then
    now <- currentTimeFormatted ;;
    ofstream_insert c now ;;
    ofstream_insert c (" " ++ message)
  else
    cerr_line (not_open_message c).

Definition write (message : string) : M unit := write_on Info message.
Definition writeWarning (message : string) : M unit := write_on Warning message.
Definition writeError (message : string) : M unit := write_on Error message.

Definition writeLine (message : string) : M unit := write (message ++ newline).
Definition writeWarningLine (message : string) : M unit := writeWarning (message ++ newline).
Definition writeErrorLine (message : string) : M unit := writeError (message ++ newline).

(** The line variant of a channel. *)
Definition write_line_on (c : channel) (message : string) : M unit :=
  match c with
  | Info => writeLine message
  | Warning => writeWarningLine message
  | Error => writeErrorLine message
  end.

Definition open_failure_prefix : string := "Error: failed to open log file at ".

(** [cerr << "Error: failed to open log file at " << logFilePath << endl]. *)
Definition report_open_failure (logFilePath : list string) : M unit :=
  cerr_line (open_failure_prefix ++ quoted (path_string logFilePath)).

(** [createLogs]: the local [logFilePath] is assigned three times; each
    assignment calls [currentDateFormatted] anew. *)
Definition createLogs (logDirPath : list string) : M unit :=
  date <- currentDateFormatted ;;
  let logFilePath := logDirPath /: (date ++ ".log") in
  ofstream_open Info logFilePath ;;
  date <- currentDateFormatted ;;
  let logFilePath := logDirPath /: (date ++ " Warnings.log") in
  ofstream_open Warning logFilePath ;;
  warning_open <- ofstream_is_open Warning ;;
  when (negb warning_open) (report_open_failure logFilePath) ;;
  info_open <- ofstream_is_open Info ;;
  when (negb info_open) (report_open_failure logFilePath) ;;
  date <- currentDateFormatted ;;
  let logFilePath := logDirPath /: (date ++ " Errors.log") in
  ofstream_open Error logFilePath ;;
  error_open <- ofstream_is_open Error ;;
  when (negb error_open) (report_open_failure logFilePath).

(** The directory the constructor resolves. *)
Definition resolve_log_dir (isSubdirectory : bool) : M (list string) :=
  if isSubdirectory then
    current <- fs_current_path ;; ret (current /: "log")
  else
    current <- fs_current_path ;; ret (parent_path current /: "log").

(** [Logger(bool isSubdirectory = false)]. *)
Definition Logger_ctor (isSubdirectory : bool) : M unit :=
  logDirPath <- resolve_log_dir isSubdirectory ;;
  fs_create_directories logDirPath ;;
  createLogs logDirPath.

(** [Logger log;] as [main] writes it: the default argument. *)
Definition Logger_ctor_default : M unit := Logger_ctor false.

Definition close_if_open (c : channel) : M unit :=
  open <- ofstream_is_open c ;;
  when open (ofstream_close c).

(** [~Logger()]. *)
Definition Logger_dtor : M unit :=
  close_if_open Info ;;
  close_if_open Warning ;;
  close_if_open Error.

(** [main] of program.cpp, up to the writes on [cout]. *)
Definition program_main : M unit :=
  Logger_ctor_default ;;
  writeLine "Hello, this is a test, " ;;
  writeWarningLine "Hello, this is a warning." ;;
  writeErrorLine "Hello, this is an error." ;;
  write "This is the second line of the file." ;;
  Logger_dtor.

(** A small machine to run things on: working directory [/home/me/build],
    a clock that reads [start] first and [step] seconds more at each
    further reading, in UTC; [mk] and [op] say which directories may be
    created and which files may be opened. *)
Definition demo_world (start step : Z) (mk op : list string -> bool) : World :=
  {| cwd := ["home"; "me"; "build"];
     fs := <[ ["home"; "me"; "build"] := Dir ]> (<[ ["home"; "me"] := Dir ]> (<[ ["home"] := Dir ]> ∅));
     may_mkdir := mk; may_open := op;
     clock := fun n => start + step * Z.of_nat n; ticks := 0;
     utc_offset := fun _ => 0;
     cerr := [] |}.

Definition allow : list string -> bool := fun _ => true.
Definition deny : list string -> bool := fun _ => false.

(* ===================================================================== *)
(** ** Fixed patterns of digits and punctuation *)
(* ===================================================================== *)

Inductive pat_item : Type :=
  | Digit
  | Lit (c : ascii).

Definition is_digit (c : ascii) : bool :=
  let n := nat_of_ascii c in (48 <=? n)%nat && (n <=? 57)%nat.

Definition item_matches (i : pat_item) (c : ascii) : bool :=
  match i with
  | Digit => is_digit c
  | Lit c' => Ascii.eqb c c'
  end.

(** The whole string matches the pattern, item by item. *)
Fixpoint matches (pat : list pat_item) (s : string) : bool :=
  match pat, s with
  | [], "" => true
  | i :: pat', String c s' => item_matches i c && matches pat' s'
  | _, _ => false
  end.


(** HH:MM:SS *)
Definition time_pattern : list pat_item :=
  [Digit; Digit; Lit ":"; Digit; Digit; Lit ":"; Digit; Digit].


(** Fields within the ranges the C standard gives them. *)
Definition tm_in_range (t : tm) : Prop :=
  0 <= tm_sec t <= 60 /\ 0 <= tm_min t <= 59 /\ 0 <= tm_hour t <= 23 /\
  1 <= tm_mday t <= 31 /\ 0 <= tm_mon t <= 11.

(* ===================================================================== *)
(** ** Vocabulary of the statements *)
(* ===================================================================== *)

(** The instant the [k]-th coming call of [time] returns. *)
Definition reading (w : World) (k : nat) : time_t := clock w (ticks w + k)%nat.

(** The date and the time of day that reading shows. *)
Definition date_reading (w : World) (k : nat) : string :=
  format_instant date_format (utc_offset w) (reading w k).

Definition time_reading (w : World) (k : nat) : string :=
  format_instant time_format (utc_offset w) (reading w k).

(** The directory the constructor flag selects. *)
Definition log_dir (isSubdirectory : bool) (w : World) : list string :=
  if isSubdirectory then cwd w /: "log" else parent_path (cwd w) /: "log".

(** The file name of a channel for a date. *)
Definition file_name (c : channel) (date : string) : string :=
  match c with
  | Info => date ++ ".log"
  | Warning => date ++ " Warnings.log"
  | Error => date ++ " Errors.log"
  end.

(** [createLogs] reads the clock for the info file first, then for the
    warning file, then for the error file. *)
Definition reading_of (c : channel) : nat :=
  match c with Info => 0%nat | Warning => 1%nat | Error => 2%nat end.

(** The path [createLogs] opens for a channel, started in world [w]: the
    info file is named by the first reading of the clock, the warning file
    by the second, the error file by the third. *)
Definition channel_path (dir : list string) (w : World) (c : channel) : list string :=
  match c with
  | Info => dir /: (date_reading w 0 ++ ".log")
  | Warning => dir /: (date_reading w 1 ++ " Warnings.log")
  | Error => dir /: (date_reading w 2 ++ " Errors.log")
  end.

(** A stream member after [open]. *)
Definition opened (ok : bool) (p : list string) : ofstream :=
  if ok then {| assoc := Some p; failbit := false |}
  else {| assoc := None; failbit := true |}.

Definition touch_if (ok : bool) (p : list string) (w : World) : World :=
  if ok then touch p w else w.

(** The line [createLogs] prints for a path. *)
Definition open_failure_line (p : list string) : string :=
  open_failure_prefix ++ quoted (path_string p).

Definition report_unless (ok : bool) (p : list string) (w : World) : World :=
  if ok then w else add_cerr (open_failure_line p) w.

(** The world [createLogs] leaves, step by step as the body runs. *)
Definition createLogs_world (dir : list string) (w : World) : World :=
  let pI := channel_path dir w Info in
  let pW := channel_path dir w Warning in
  let pE := channel_path dir w Error in
  let okI := can_open w pI in
  let okW := can_open w pW in
  let okE := can_open w pE in
  report_unless okE pE (touch_if okE pE (tick
    (report_unless okI pW (report_unless okW pW (touch_if okW pW (tick
      (touch_if okI pI (tick w)))))))).

(** The members [createLogs] leaves. *)
Definition createLogs_members (dir : list string) (w : World) : Logger :=
  {| logFile := opened (can_open w (channel_path dir w Info)) (channel_path dir w Info);
     warningLogFile := opened (can_open w (channel_path dir w Warning)) (channel_path dir w Warning);
     errorLogFile := opened (can_open w (channel_path dir w Error)) (channel_path dir w Error) |}.

(** The diagnostics of [createLogs], in the order they are printed. *)
Definition createLogs_diagnostics (dir : list string) (w : World) : list string :=
  ((if can_open w (channel_path dir w Warning) then []
    else [open_failure_line (channel_path dir w Warning)]) ++
   (if can_open w (channel_path dir w Info) then []
    else [open_failure_line (channel_path dir w Warning)]) ++
   (if can_open w (channel_path dir w Error) then []
    else [open_failure_line (channel_path dir w Error)]))%list.


(** Every stream that is open is in a good state and has its file. *)
Definition Logger_inv (st : State) : Prop :=
  forall c p, assoc (member c (self st)) = Some p ->
    failbit (member c (self st)) = false /\
    exists content, fs (world st) !! p = Some (File content).

(** What a program does with a constructed logger: it calls the write
    methods (the line variants are writes of the message with a newline),
    and the destructor runs. *)
Inductive call : Type :=
  | CallWrite (c : channel) (message : string)
  | CallWriteLine (c : channel) (message : string)
  | CallDtor.

Definition run_call (k : call) : M unit :=
  match k with
  | CallWrite c message => write_on c message
  | CallWriteLine c message => write_line_on c message
  | CallDtor => Logger_dtor
  end.

Fixpoint run_calls (ks : list call) : M unit :=
  match ks with
  | [] => ret tt
  | k :: ks' => run_call k ;; run_calls ks'
  end.

Definition is_dtor (k : call) : bool :=
  match k with CallDtor => true | _ => false end.

(** The path the open-failure diagnostic of a channel prints: [createLogs]
    prints its local [logFilePath], which holds the warning file's path
    when the info stream is checked. *)
Definition diagnostic_path (dir : list string) (w : World) (c : channel) : list string :=
  match c with
  | Info => channel_path dir w Warning
  | Warning => channel_path dir w Warning
  | Error => channel_path dir w Error
  end.

(** The open-failure diagnostics of a constructed logger, in the order
    [createLogs] checks the streams. *)
Definition open_diagnostics (dir : list string) (w : World) (l : Logger) : list string :=
  List.concat (map (fun c => if is_open (member c l) then []
                        else [open_failure_line (diagnostic_path dir w c)])
              [Warning; Info; Error]).

(** A stream member after the destructor body. *)
Definition after_close (s : ofstream) : ofstream :=
  if is_open s then {| assoc := None; failbit := failbit s |} else s.

(** [w'] is [w] with, at most, new directories: what [create_directories]
    may do to the world. *)
Definition dirs_added (w w' : World) : Prop :=
  cwd w' = cwd w /\ may_mkdir w' = may_mkdir w /\ may_open w' = may_open w /\
  clock w' = clock w /\ ticks w' = ticks w /\ utc_offset w' = utc_offset w /\
  cerr w' = cerr w /\
  (forall p n, fs w !! p = Some n -> fs w' !! p = Some n) /\
  (forall p n, fs w' !! p = Some n -> fs w !! p = Some n \/ n = Dir).

(** Whether a text contains a space. *)
Fixpoint has_space (s : string) : bool :=
  match s with
  | "" => false
  | String c s' => Ascii.eqb c " " || has_space s'
  end.

(* ===================================================================== *)
(** ** Vocabulary of the further properties *)
(* ===================================================================== *)


(** The channel a call writes on and the text it passes to the write
    method; the destructor writes nothing. *)
Definition call_text (k : call) : option (channel * string) :=
  match k with
  | CallWrite c message => Some (c, message)
  | CallWriteLine c message => Some (c, message ++ newline)
  | CallDtor => None
  end.

(** The stream members once the destructor body has run. *)
Definition Logger_after_dtor (l : Logger) : Logger :=
  {| logFile := after_close (logFile l);
     warningLogFile := after_close (warningLogFile l);
     errorLogFile := after_close (errorLogFile l) |}.






(** Every character of a text satisfies a test. *)
Fixpoint all_chars (test : ascii -> bool) (s : string) : bool :=
  match s with
  | "" => true
  | String c s' => test c && all_chars test s'
  end.

(** The characters [%Y-%m-%d] can print: digits and the hyphen. *)
Definition date_char (c : ascii) : bool := is_digit c || Ascii.eqb c "-".

(** The calls [main] makes on its logger, the destructor at the end of the
    scope included. *)
Definition main_calls : list call :=
  [CallWriteLine Info "Hello, this is a test, ";
   CallWriteLine Warning "Hello, this is a warning.";
   CallWriteLine Error "Hello, this is an error.";
   CallWrite Info "This is the second line of the file.";
   CallDtor].

(** The range of the C [int]. *)
Definition fits_int (z : Z) : bool :=
  (-2147483648 <=? z) && (z <=? 2147483647).

(** The instants at which [localtime] succeeds and [%Y] prints the year as
    it is: the year counted from 1900, which [tm_year] holds, and the year
    itself, which [strftime] computes in an [int], both fit. *)
Definition localtime_defined (zone : time_t -> Z) (t : time_t) : bool :=
  fits_int (tm_year (localtime zone t)) &&
  fits_int (tm_year (localtime zone t) + 1900).

(** [localtime] succeeds at the three readings of the clock a construction
    makes for its file names. *)
Definition construction_clock_defined (w : World) : bool :=
  forallb (fun k => localtime_defined (utc_offset w) (reading w k)) [0; 1; 2]%nat.

(** The working directory exists, so that [fs::current_path()] returns. *)
Definition cwd_exists (w : World) : bool := is_dir (node_at w (cwd w)).

(* ===================================================================== *)
(** * Properties *)
(* ===================================================================== *)

(** ** The calendar *)

Section Calendar.

Lemma civil_from_days_range (days : Z) :
  let '(_, mon, mday) := civil_from_days days in
  1 <= mon <= 12 /\ 1 <= mday <= 31.
Proof.
  unfold civil_from_days.
  set (z := days + 719468).
  pose proof (Z.mod_pos_bound z 146097 ltac:(lia)) as Hd1.
  set (d1 := z mod 146097) in *.
  set (n100 := Z.min (d1 / 36524) 3).
  assert (Hd2 : 0 <= d1 - 36524 * n100 <= 36524).
  { subst n100. pose proof (Z.div_mod d1 36524 ltac:(lia)).
    pose proof (Z.mod_pos_bound d1 36524 ltac:(lia)). lia. }
  set (d2 := d1 - 36524 * n100) in *.
  pose proof (Z.mod_pos_bound d2 1461 ltac:(lia)) as Hd3.
  set (d3 := d2 mod 1461) in *.
  set (n1 := Z.min (d3 / 365) 3).
  assert (Hdoy : 0 <= d3 - 365 * n1 <= 365).
  { subst n1. pose proof (Z.div_mod d3 365 ltac:(lia)).
    pose proof (Z.mod_pos_bound d3 365 ltac:(lia)). lia. }
  set (doy := d3 - 365 * n1) in *.
  pose proof (Z.div_mod (5 * doy + 2) 153 ltac:(lia)) as Hmp.
  pose proof (Z.mod_pos_bound (5 * doy + 2) 153 ltac:(lia)) as Hmp'.
  set (mp := (5 * doy + 2) / 153) in *.
  pose proof (Z.div_mod (153 * mp + 2) 5 ltac:(lia)) as Hq.
  pose proof (Z.mod_pos_bound (153 * mp + 2) 5 ltac:(lia)) as Hq'.
  set (q := (153 * mp + 2) / 5) in *.
  destruct (Z.ltb_spec mp 10); lia.
Qed.

Lemma gmtime_in_range (t : Z) : tm_in_range (gmtime t).
Proof.
  unfold gmtime, tm_in_range.
  pose proof (civil_from_days_range (t / 86400)) as H.
  destruct (civil_from_days (t / 86400)) as [[year mon] mday]. simpl.
  pose proof (Z.mod_pos_bound t 86400 ltac:(lia)) as Hrem.
  set (rem := t mod 86400) in *.
  pose proof (Z.mod_pos_bound rem 60 ltac:(lia)).
  pose proof (Z.mod_pos_bound (rem / 60) 60 ltac:(lia)).
  pose proof (Z.div_mod rem 3600 ltac:(lia)).
  pose proof (Z.mod_pos_bound rem 3600 ltac:(lia)).
  lia.
Qed.

Lemma localtime_in_range (off : Z -> Z) (t : Z) : tm_in_range (localtime off t).
Proof. apply gmtime_in_range. Qed.

End Calendar.

(** ** Decimal printing *)

Section Printing.

(** A boolean property checked on a whole interval by evaluation. *)
Lemma forallb_interval (P : Z -> bool) (lo len : Z) :
  forallb P (map (fun i => lo + Z.of_nat i) (seq 0 (Z.to_nat len))) = true ->
  forall n, lo <= n < lo + len -> P n = true.
Proof.
  intros Hall n Hn.
  rewrite forallb_forall in Hall. apply Hall.
  apply in_map_iff. exists (Z.to_nat (n - lo)). split; [lia|].
  apply in_seq. lia.
Qed.

Lemma dec02_two_digits (n : Z) :
  0 <= n <= 99 -> matches [Digit; Digit] (dec02 n) = true.
Proof.
  intros Hn.
  apply (forallb_interval (fun n => matches [Digit; Digit] (dec02 n)) 0 100);
    [vm_compute; reflexivity | lia].
Qed.


Lemma matches_app (p1 p2 : list pat_item) (s1 s2 : string) :
  matches p1 s1 = true -> matches p2 s2 = true ->
  matches (p1 ++ p2) (s1 ++ s2) = true.
Proof.
  revert s1. induction p1 as [|i p1 IH]; intros [|c s1]; simpl; try discriminate.
  - auto.
  - intros [Hi Hs]%andb_true_iff H2. rewrite Hi. simpl. auto.
Qed.

Lemma matches_length (p : list pat_item) (s : string) :
  matches p s = true -> String.length s = List.length p.
Proof.
  revert s. induction p as [|i p IH]; intros [|c s]; simpl; try discriminate.
  - reflexivity.
  - intros [_ Hs]%andb_true_iff. f_equal. auto.
Qed.

Lemma time_text_matches (t : tm) :
  tm_in_range t ->
  matches time_pattern (strftime_text time_format t) = true.
Proof.
  intros (Hs & Hm & Hh & _ & _).
  change (strftime_text time_format t)
    with (dec02 (tm_hour t) ++ String ":" (dec02 (tm_min t) ++ String ":" (dec02 (tm_sec t) ++ ""))).
  apply (matches_app [Digit; Digit] _); [apply dec02_two_digits; lia|].
  apply (matches_app [Lit ":"] _ (String ":" "")); [reflexivity|].
  apply (matches_app [Digit; Digit] _); [apply dec02_two_digits; lia|].
  apply (matches_app [Lit ":"] _ (String ":" "")); [reflexivity|].
  apply (matches_app [Digit; Digit] []); [apply dec02_two_digits; lia | reflexivity].
Qed.


(** The 80 bytes of [buffer] are enough for a time of day. *)
Lemma strftime_time_fits (t : tm) :
  tm_in_range t ->
  strftime 80 time_format t = Some (strftime_text time_format t).
Proof.
  intros Hr. unfold strftime.
  rewrite (matches_length _ _ (time_text_matches t Hr)).
  reflexivity.
Qed.


End Printing.

(** ** How the library calls change the world *)

Section WorldLemmas.

Implicit Types (w : World) (p q : list string) (n : node).

Lemma touch_fields w q :
  cwd (touch q w) = cwd w /\ may_mkdir (touch q w) = may_mkdir w /\
  may_open (touch q w) = may_open w /\ clock (touch q w) = clock w /\
  ticks (touch q w) = ticks w /\ utc_offset (touch q w) = utc_offset w /\
  cerr (touch q w) = cerr w.
Proof. unfold touch. destruct (fs w !! q); simpl; repeat split. Qed.

Lemma append_to_fields w q text :
  cwd (append_to q text w) = cwd w /\ may_mkdir (append_to q text w) = may_mkdir w /\
  may_open (append_to q text w) = may_open w /\ clock (append_to q text w) = clock w /\
  ticks (append_to q text w) = ticks w /\ utc_offset (append_to q text w) = utc_offset w /\
  cerr (append_to q text w) = cerr w.
Proof. unfold append_to. destruct (fs w !! q) as [[|c]|]; simpl; repeat split. Qed.

(** Opening never removes or rewrites what exists. *)
Lemma touch_preserves w q p n :
  fs w !! p = Some n -> fs (touch q w) !! p = Some n.
Proof.
  intros Hp. unfold touch. destruct (fs w !! q) eqn:Hq; [exact Hp|].
  simpl. rewrite lookup_insert_ne; [exact Hp|]. congruence.
Qed.

Lemma touch_lookup_other w q p :
  p <> q -> fs (touch q w) !! p = fs w !! p.
Proof.
  intros Hne. unfold touch. destruct (fs w !! q); [reflexivity|].
  simpl. apply lookup_insert_ne. congruence.
Qed.

Lemma touch_is_some w q : is_Some (fs (touch q w) !! q).
Proof.
  unfold touch. destruct (fs w !! q) eqn:Hq; [rewrite Hq; eauto|].
  simpl. rewrite lookup_insert_eq. eauto.
Qed.

(** A successful open leaves a file under the path. *)
Lemma touch_file w q :
  can_open w q = true -> exists content, fs (touch q w) !! q = Some (File content).
Proof.
  unfold can_open, touch, node_at. intros Hopen.
  destruct q as [|c q']; [simpl in Hopen; discriminate|].
  destruct (fs w !! (c :: q')) as [[|content]|] eqn:Hq.
  - simpl in Hopen. destruct (is_dir _); discriminate.
  - rewrite Hq. eauto.
  - simpl. rewrite lookup_insert_eq. eauto.
Qed.

Lemma is_dir_touch w q p :
  is_dir (node_at (touch q w) p) = is_dir (node_at w p).
Proof.
  destruct p as [|c p']; [reflexivity|]. simpl.
  unfold touch. destruct (fs w !! q) eqn:Hq; [reflexivity|]. simpl.
  destruct (decide (q = c :: p')) as [->|Hne].
  - rewrite lookup_insert_eq, Hq. reflexivity.
  - rewrite lookup_insert_ne by exact Hne. reflexivity.
Qed.

(** Whether a file can be opened does not depend on the files opened
    before, on the clock or on standard error. *)
Lemma can_open_touch w q p : can_open (touch q w) p = can_open w p.
Proof.
  unfold can_open. rewrite !is_dir_touch.
  destruct (touch_fields w q) as (_ & _ & -> & _). reflexivity.
Qed.

Lemma can_open_tick w p : can_open (tick w) p = can_open w p.
Proof. unfold can_open, node_at. destruct p, (parent_path _); reflexivity. Qed.

Lemma can_open_add_cerr w text p : can_open (add_cerr text w) p = can_open w p.
Proof. unfold can_open, node_at. destruct p, (parent_path _); reflexivity. Qed.

Lemma touch_fs_tick w q : fs (touch q (tick w)) = fs (touch q w).
Proof. unfold touch. simpl. destruct (fs w !! q); reflexivity. Qed.

Lemma append_to_preserves_dir w q text p :
  fs (append_to q text w) !! p = Some Dir <-> fs w !! p = Some Dir.
Proof.
  unfold append_to. destruct (fs w !! q) as [[|content]|] eqn:Hq; try reflexivity.
  simpl. destruct (decide (q = p)) as [->|Hne].
  - rewrite lookup_insert_eq, Hq. split; discriminate.
  - rewrite lookup_insert_ne by exact Hne. reflexivity.
Qed.

Lemma file_content_append_to w q text content :
  file_content w q = Some content ->
  file_content (append_to q text w) q = Some (content ++ text).
Proof.
  unfold file_content, append_to.
  destruct (fs w !! q) as [[|c]|] eqn:Hq; try discriminate.
  intros [= ->]. simpl. rewrite lookup_insert_eq. reflexivity.
Qed.

Lemma append_to_lookup_other w q text p :
  p <> q -> fs (append_to q text w) !! p = fs w !! p.
Proof.
  intros Hne. unfold append_to.
  destruct (fs w !! q) as [[|c]|]; try reflexivity.
  simpl. apply lookup_insert_ne. congruence.
Qed.

Lemma file_content_tick w p : file_content (tick w) p = file_content w p.
Proof. reflexivity. Qed.

End WorldLemmas.

(** ** The methods, evaluated *)

Section Methods.

Implicit Types (w : World) (st : State) (p q dir : list string) (c : channel).

(** A reading and its text depend on the zone rules, the clock and the
    count of readings only. *)
Lemma reading_ext w w' k k' :
  clock w = clock w' -> (ticks w + k = ticks w' + k')%nat ->
  reading w k = reading w' k'.
Proof. unfold reading. intros -> ->. reflexivity. Qed.

Lemma date_reading_ext w w' k k' :
  utc_offset w = utc_offset w' -> reading w k = reading w' k' ->
  date_reading w k = date_reading w' k'.
Proof. unfold date_reading. intros -> ->. reflexivity. Qed.


Lemma time_now_eq st :
  time_now st = Returned (reading (world st) 0) {| self := self st; world := tick (world st) |}.
Proof.
  unfold time_now, bind, get_world, modify_world, ret, reading. cbn [self world].
  rewrite Nat.add_0_r. reflexivity.
Qed.

Lemma currentTimeFormatted_eq st :
  currentTimeFormatted st =
  Returned (time_reading (world st) 0) {| self := self st; world := tick (world st) |}.
Proof.
  unfold currentTimeFormatted. unfold bind at 1. rewrite time_now_eq.
  unfold localtime_now, bind, get_world, ret, time_reading, format_instant.
  cbn [self world]. reflexivity.
Qed.

Lemma currentDateFormatted_eq st :
  currentDateFormatted st =
  Returned (date_reading (world st) 0) {| self := self st; world := tick (world st) |}.
Proof.
  unfold currentDateFormatted. unfold bind at 1. rewrite time_now_eq.
  unfold localtime_now, bind, get_world, ret, date_reading, format_instant.
  cbn [self world]. reflexivity.
Qed.

Lemma member_set_member_eq c s l : member c (set_member c s l) = s.
Proof. destruct c; reflexivity. Qed.

Lemma member_set_member_ne c c' s l :
  c <> c' -> member c' (set_member c s l) = member c' l.
Proof. destruct c, c'; intros H; try reflexivity; congruence. Qed.

Lemma ofstream_open_eq c p st :
  is_open (member c (self st)) = false ->
  ofstream_open c p st =
  Returned tt {| self := set_member c (opened (can_open (world st) p) p) (self st);
                 world := touch_if (can_open (world st) p) p (world st) |}.
Proof.
  intros Hclosed. unfold ofstream_open, bind, get_member, get_world. simpl.
  rewrite Hclosed. destruct st as [l w]. simpl.
  destruct (can_open w p); reflexivity.
Qed.

Lemma date_reading_tick w k : date_reading (tick w) k = date_reading w (S k).
Proof.
  apply date_reading_ext; [reflexivity|].
  apply reading_ext; [reflexivity|]. cbn [ticks tick]. lia.
Qed.

Lemma date_reading_touch_if ok q w k :
  date_reading (touch_if ok q w) k = date_reading w k.
Proof.
  destruct ok; [|reflexivity]. unfold touch_if.
  destruct (touch_fields w q) as (_ & _ & _ & Hc & Ht & Hz & _).
  apply date_reading_ext; [exact Hz|].
  apply reading_ext; [exact Hc | rewrite Ht; reflexivity].
Qed.

Lemma date_reading_report_unless ok q w k :
  date_reading (report_unless ok q w) k = date_reading w k.
Proof.
  destruct ok; [reflexivity|].
  apply date_reading_ext; [reflexivity|].
  apply reading_ext; reflexivity.
Qed.

Lemma can_open_touch_if ok q w p : can_open (touch_if ok q w) p = can_open w p.
Proof. destruct ok; [apply can_open_touch | reflexivity]. Qed.

Lemma can_open_report_unless ok q w p :
  can_open (report_unless ok q w) p = can_open w p.
Proof. destruct ok; [reflexivity | apply can_open_add_cerr]. Qed.

Lemma is_open_opened ok p : is_open (opened ok p) = ok.
Proof. destruct ok; reflexivity. Qed.

Lemma report_open_failure_eq ok p st :
  when (negb ok) (report_open_failure p) st =
  Returned tt {| self := self st; world := report_unless ok p (world st) |}.
Proof. destruct ok, st; reflexivity. Qed.

Lemma is_open_eq c st :
  ofstream_is_open c st = Returned (is_open (member c (self st))) st.
Proof. reflexivity. Qed.

Ltac run_bind := unfold bind at 1; cbn [self world].

(** [createLogs] on a logger whose streams are still as declared. *)
Lemma createLogs_eq dir st :
  self st = Logger_members_default ->
  createLogs dir st =
  Returned tt {| self := createLogs_members dir (world st);
                 world := createLogs_world dir (world st) |}.
Proof.
  destruct st as [l w]. cbn [self world]. intros ->.
  unfold createLogs_members, createLogs_world, channel_path.
  set (pI := dir /: (date_reading w 0 ++ ".log")).
  set (pW := dir /: (date_reading w 1 ++ " Warnings.log")).
  set (pE := dir /: (date_reading w 2 ++ " Errors.log")).
  set (okI := can_open w pI). set (okW := can_open w pW). set (okE := can_open w pE).
  unfold createLogs.
  run_bind. rewrite currentDateFormatted_eq. cbn [self world]. fold pI.
  run_bind. rewrite ofstream_open_eq by reflexivity. cbn [self world].
  rewrite can_open_tick. fold okI.
  set (w1 := touch_if okI pI (tick w)).
  assert (HpW : dir /: (date_reading w1 0 ++ " Warnings.log") = pW).
  { subst w1. rewrite date_reading_touch_if, date_reading_tick. reflexivity. }
  run_bind. rewrite currentDateFormatted_eq. cbn [self world]. rewrite HpW.
  run_bind. rewrite ofstream_open_eq by reflexivity. cbn [self world].
  assert (HokW : can_open (tick w1) pW = okW).
  { subst w1. rewrite can_open_tick, can_open_touch_if, can_open_tick. reflexivity. }
  rewrite HokW.
  set (w2 := touch_if okW pW (tick w1)).
  run_bind. rewrite is_open_eq. cbn [self world].
  run_bind. rewrite report_open_failure_eq. cbn [self world].
  run_bind. rewrite is_open_eq. cbn [self world].
  run_bind. rewrite report_open_failure_eq. cbn [self world].
  cbn [member set_member logFile warningLogFile errorLogFile Logger_members_default].
  rewrite !is_open_opened.
  set (w3 := report_unless okI pW (report_unless okW pW w2)).
  assert (HpE : dir /: (date_reading w3 0 ++ " Errors.log") = pE).
  { subst w3 w2 w1.
    rewrite !date_reading_report_unless, date_reading_touch_if, date_reading_tick,
      date_reading_touch_if, date_reading_tick. reflexivity. }
  run_bind. rewrite currentDateFormatted_eq. cbn [self world]. rewrite HpE.
  run_bind. rewrite ofstream_open_eq by reflexivity. cbn [self world].
  assert (HokE : can_open (tick w3) pE = okE).
  { subst w3 w2 w1.
    rewrite can_open_tick, !can_open_report_unless, can_open_touch_if, can_open_tick,
      can_open_touch_if, can_open_tick. reflexivity. }
  rewrite HokE.
  run_bind. rewrite is_open_eq. cbn [self world].
  rewrite report_open_failure_eq. cbn [self world].
  cbn [member set_member logFile warningLogFile errorLogFile Logger_members_default].
  rewrite is_open_opened.
  reflexivity.
Qed.

(** The file of a channel is named by the date of the channel's own
    reading of the clock. *)
Lemma channel_path_file_name dir w c :
  channel_path dir w c = dir /: file_name c (date_reading w (reading_of c)).
Proof. destruct c; unfold channel_path, file_name, reading_of; reflexivity. Qed.

(** *** Writing *)

Lemma ofstream_insert_open c text st p :
  assoc (member c (self st)) = Some p -> failbit (member c (self st)) = false ->
  ofstream_insert c text st =
  Returned tt {| self := self st; world := append_to p text (world st) |}.
Proof.
  intros Hp Hgood. unfold ofstream_insert, bind, get_member.
  rewrite Hp, Hgood. reflexivity.
Qed.

Lemma write_on_not_open c message st :
  is_open (member c (self st)) = false ->
  write_on c message st =
  Returned tt {| self := self st; world := add_cerr (not_open_message c) (world st) |}.
Proof.
  intros Hclosed. unfold write_on. unfold bind at 1.
  rewrite is_open_eq, Hclosed. reflexivity.
Qed.

Lemma write_on_open c message st p :
  assoc (member c (self st)) = Some p -> failbit (member c (self st)) = false ->
  write_on c message st =
  Returned tt {| self := self st;
                 world := append_to p (" " ++ message)
                            (append_to p (time_reading (world st) 0) (tick (world st))) |}.
Proof.
  intros Hp Hgood. unfold write_on. unfold bind at 1.
  rewrite is_open_eq. unfold is_open. rewrite Hp.
  unfold bind at 1. rewrite currentTimeFormatted_eq.
  unfold bind at 1.
  rewrite (ofstream_insert_open c _ _ p) by assumption. cbn [self world].
  rewrite (ofstream_insert_open c _ _ p) by assumption. reflexivity.
Qed.

(** No write touches the stream members. *)
Lemma write_on_self c message st :
  exists st', write_on c message st = Returned tt st' /\ self st' = self st.
Proof.
  destruct (assoc (member c (self st))) as [p|] eqn:Hp.
  - unfold write_on. unfold bind at 1. rewrite is_open_eq. unfold is_open. rewrite Hp.
    unfold bind at 1. rewrite currentTimeFormatted_eq. unfold bind at 1.
    unfold ofstream_insert at 1, bind at 1, get_member. cbn [self world]. rewrite Hp.
    destruct (failbit (member c (self st))) eqn:Hf.
    + unfold ret at 1. unfold ofstream_insert, bind, get_member. cbn [self world].
      rewrite Hp, Hf. eexists. split; reflexivity.
    + unfold modify_world at 1. unfold ofstream_insert, bind, get_member. cbn [self world].
      rewrite Hp, Hf. eexists. split; reflexivity.
  - rewrite write_on_not_open by (unfold is_open; rewrite Hp; reflexivity).
    eexists. split; reflexivity.
Qed.

(** *** The destructor *)

Lemma close_if_open_eq c st :
  close_if_open c st =
  Returned tt {| self := set_member c (after_close (member c (self st))) (self st);
                 world := world st |}.
Proof.
  unfold close_if_open, bind, after_close. rewrite is_open_eq.
  unfold is_open, ofstream_close, bind, get_member, when.
  destruct st as [l w]. cbn [self world].
  destruct (assoc (member c l)) eqn:Hp.
  - cbn [self world]. rewrite Hp. reflexivity.
  - destruct c, l; reflexivity.
Qed.

Lemma Logger_dtor_eq st :
  Logger_dtor st =
  Returned tt {| self := {| logFile := after_close (logFile (self st));
                            warningLogFile := after_close (warningLogFile (self st));
                            errorLogFile := after_close (errorLogFile (self st)) |};
                 world := world st |}.
Proof.
  unfold Logger_dtor. unfold bind at 1. rewrite close_if_open_eq.
  unfold bind at 1. rewrite close_if_open_eq. rewrite close_if_open_eq.
  reflexivity.
Qed.

Lemma after_close_not_open s : is_open (after_close s) = false.
Proof. unfold after_close, is_open. destruct (assoc s) eqn:H; [reflexivity | rewrite H; reflexivity]. Qed.

Lemma after_close_idem s : after_close (after_close s) = after_close s.
Proof. unfold after_close at 1. rewrite after_close_not_open. reflexivity. Qed.

(** *** Creating the directory *)

Lemma dirs_added_refl w : dirs_added w w.
Proof. unfold dirs_added. repeat split; auto. Qed.

Lemma dirs_added_trans w1 w2 w3 :
  dirs_added w1 w2 -> dirs_added w2 w3 -> dirs_added w1 w3.
Proof.
  intros (A1 & A2 & A3 & A4 & A5 & A6 & A7 & A8 & A9)
         (B1 & B2 & B3 & B4 & B5 & B6 & B7 & B8 & B9).
  unfold dirs_added. repeat split; try congruence.
  - intros p n H. apply B8, A8, H.
  - intros p n H. destruct (B9 p n H) as [H'|H']; [apply (A9 p n H') | right; exact H'].
Qed.

Lemma dirs_added_mkdir w p :
  fs w !! p = None -> dirs_added w (set_fs (<[p := Dir]> (fs w)) w).
Proof.
  intros Hnone. unfold dirs_added. cbn [set_fs cwd may_mkdir may_open clock ticks utc_offset cerr fs].
  repeat split; try reflexivity.
  - intros q n Hq. rewrite lookup_insert_ne; [exact Hq | congruence].
  - intros q n Hq. destruct (decide (p = q)) as [->|Hne].
    + rewrite lookup_insert_eq in Hq. right. congruence.
    + rewrite lookup_insert_ne in Hq by exact Hne. left. exact Hq.
Qed.

Lemma node_at_snoc w base (name : string) :
  node_at w (base /: name) = fs w !! (base /: name).
Proof. unfold path_div. destruct base; reflexivity. Qed.

Lemma create_directories_from_cons base (name : string) rest st :
  create_directories_from base (name :: rest) st =
  match fs (world st) !! (base /: name) with
  | Some Dir => create_directories_from (base /: name) rest st
  | Some (File _) => Thrown (filesystem_error "Not a directory" (base /: name)) st
  | None =>
      if may_mkdir (world st) (base /: name)
      then create_directories_from (base /: name) rest
             {| self := self st;
                world := set_fs (<[base /: name := Dir]> (fs (world st))) (world st) |}
      else Thrown (filesystem_error "Permission denied" (base /: name)) st
  end.
Proof.
  cbn [create_directories_from]. unfold bind at 1, get_world at 1.
  destruct (fs (world st) !! (base /: name)) as [[|content]|]; try reflexivity.
  destruct (may_mkdir (world st) (base /: name)); reflexivity.
Qed.

(** The walk leaves the stream members alone and adds directories only. *)
Lemma create_directories_from_frame rest : forall base st,
  self (final (create_directories_from base rest st)) = self st /\
  dirs_added (world st) (world (final (create_directories_from base rest st))).
Proof.
  induction rest as [|name rest IH]; intros base st.
  - split; [reflexivity | apply dirs_added_refl].
  - rewrite create_directories_from_cons.
    destruct (fs (world st) !! (base /: name)) as [[|content]|] eqn:Hp.
    + apply IH.
    + split; [reflexivity | apply dirs_added_refl].
    + destruct (may_mkdir (world st) (base /: name)).
      * destruct (IH (base /: name)
                    {| self := self st;
                       world := set_fs (<[base /: name := Dir]> (fs (world st))) (world st) |})
          as [Hs Hd].
        split; [exact Hs|].
        eapply dirs_added_trans; [apply dirs_added_mkdir, Hp | exact Hd].
      * split; [reflexivity | apply dirs_added_refl].
Qed.

(** When the walk returns, the whole path is a directory. *)
Lemma create_directories_from_returns rest : forall base st st',
  create_directories_from base rest st = Returned tt st' ->
  node_at (world st) base = Some Dir ->
  node_at (world st') (base ++ rest) = Some Dir.
Proof.
  induction rest as [|name rest IH]; intros base st st' Hrun Hbase.
  - injection Hrun as <-. rewrite app_nil_r. exact Hbase.
  - rewrite create_directories_from_cons in Hrun.
    replace (base ++ name :: rest)%list with ((base /: name) ++ rest)%list
      by (unfold path_div; rewrite <- app_assoc; reflexivity).
    destruct (fs (world st) !! (base /: name)) as [[|content]|] eqn:Hp.
    + apply (IH _ _ _ Hrun). rewrite node_at_snoc. exact Hp.
    + discriminate.
    + destruct (may_mkdir (world st) (base /: name)); [|discriminate].
      apply (IH _ _ _ Hrun). rewrite node_at_snoc. cbn [world set_fs fs].
      apply lookup_insert_eq.
Qed.

Lemma fs_create_directories_frame p st :
  self (final (fs_create_directories p st)) = self st /\
  dirs_added (world st) (world (final (fs_create_directories p st))).
Proof.
  unfold fs_create_directories, bind, get_world.
  destruct (node_at (world st) p) as [[|content]|];
    first [ apply create_directories_from_frame
          | split; [reflexivity | apply dirs_added_refl] ].
Qed.

Lemma fs_create_directories_returns p st st' :
  fs_create_directories p st = Returned tt st' ->
  node_at (world st') p = Some Dir.
Proof.
  unfold fs_create_directories, bind, get_world.
  destruct (node_at (world st) p) as [[|content]|] eqn:Hp; intros Hrun.
  - injection Hrun as <-. exact Hp.
  - apply (create_directories_from_returns p [] st st' Hrun). reflexivity.
  - apply (create_directories_from_returns p [] st st' Hrun). reflexivity.
Qed.

(** A directory that exists is left as it is, without error. *)
Lemma fs_create_directories_existing p st :
  node_at (world st) p = Some Dir ->
  fs_create_directories p st = Returned tt st.
Proof.
  intros Hp. unfold fs_create_directories, bind, get_world. rewrite Hp. reflexivity.
Qed.

(** *** The constructor *)

Lemma resolve_log_dir_eq b st :
  resolve_log_dir b st = Returned (log_dir b (world st)) st.
Proof. destruct b; reflexivity. Qed.

Lemma Logger_ctor_unfold b st :
  Logger_ctor b st =
  match fs_create_directories (log_dir b (world st)) st with
  | Returned _ st1 => createLogs (log_dir b (world st)) st1
  | Thrown e st1 => Thrown e st1
  end.
Proof.
  unfold Logger_ctor. unfold bind at 1. rewrite resolve_log_dir_eq.
  unfold bind at 1. reflexivity.
Qed.

(** Construction, when the directory could be created. *)
Lemma Logger_ctor_returns b w st1 :
  fs_create_directories (log_dir b w) (fresh w) = Returned tt st1 ->
  Logger_ctor b (fresh w) =
  Returned tt {| self := createLogs_members (log_dir b w) (world st1);
                 world := createLogs_world (log_dir b w) (world st1) |}.
Proof.
  intros Hdir. rewrite Logger_ctor_unfold. cbn [world fresh]. rewrite Hdir.
  apply createLogs_eq.
  destruct (fs_create_directories_frame (log_dir b w) (fresh w)) as [Hs _].
  rewrite Hdir in Hs. exact Hs.
Qed.

(** Construction, when it could not. *)
Lemma Logger_ctor_throws b w e st1 :
  fs_create_directories (log_dir b w) (fresh w) = Thrown e st1 ->
  Logger_ctor b (fresh w) = Thrown e st1.
Proof.
  intros Hdir. rewrite Logger_ctor_unfold. cbn [world fresh]. rewrite Hdir. reflexivity.
Qed.

(** [createLogs] is the only step that can fail to return, and it never
    does: construction returns exactly when the directory is there. *)
Lemma Logger_ctor_inv_returns b w st :
  Logger_ctor b (fresh w) = Returned tt st ->
  exists st1, fs_create_directories (log_dir b w) (fresh w) = Returned tt st1.
Proof.
  rewrite Logger_ctor_unfold. cbn [world fresh].
  destruct (fs_create_directories (log_dir b w) (fresh w)) as [[] st1|e st1];
    [eauto | discriminate].
Qed.

(** *** The world [createLogs] leaves *)

Lemma touch_if_fields ok q w :
  cwd (touch_if ok q w) = cwd w /\ may_mkdir (touch_if ok q w) = may_mkdir w /\
  may_open (touch_if ok q w) = may_open w /\ clock (touch_if ok q w) = clock w /\
  ticks (touch_if ok q w) = ticks w /\ utc_offset (touch_if ok q w) = utc_offset w /\
  cerr (touch_if ok q w) = cerr w.
Proof. destruct ok; [apply touch_fields | repeat split]. Qed.

Lemma report_unless_fields ok q w :
  cwd (report_unless ok q w) = cwd w /\ may_mkdir (report_unless ok q w) = may_mkdir w /\
  may_open (report_unless ok q w) = may_open w /\ clock (report_unless ok q w) = clock w /\
  ticks (report_unless ok q w) = ticks w /\ utc_offset (report_unless ok q w) = utc_offset w /\
  fs (report_unless ok q w) = fs w /\
  cerr (report_unless ok q w) =
    (cerr w ++ (if ok then [] else [open_failure_line q]))%list.
Proof.
  destruct ok; cbn [report_unless add_cerr cwd may_mkdir may_open clock ticks utc_offset fs cerr];
    repeat split. symmetry. apply app_nil_r.
Qed.

Lemma createLogs_world_cerr dir w :
  cerr (createLogs_world dir w) = (cerr w ++ createLogs_diagnostics dir w)%list.
Proof.
  unfold createLogs_world, createLogs_diagnostics.
  repeat first
    [ rewrite (proj2 (proj2 (proj2 (proj2 (proj2 (proj2 (proj2 (report_unless_fields _ _ _))))))))
    | rewrite (proj2 (proj2 (proj2 (proj2 (proj2 (proj2 (touch_if_fields _ _ _)))))))
    | progress cbn [cerr tick] ].
  rewrite <- !app_assoc. reflexivity.
Qed.

Lemma createLogs_world_ticks dir w :
  ticks (createLogs_world dir w) = (ticks w + 3)%nat.
Proof.
  unfold createLogs_world.
  repeat first
    [ rewrite (proj1 (proj2 (proj2 (proj2 (proj2 (report_unless_fields _ _ _))))))
    | rewrite (proj1 (proj2 (proj2 (proj2 (proj2 (touch_if_fields _ _ _))))))
    | progress cbn [ticks tick] ].
  lia.
Qed.

Lemma touch_if_preserves ok q w p n :
  fs w !! p = Some n -> fs (touch_if ok q w) !! p = Some n.
Proof. destruct ok; [apply touch_preserves | auto]. Qed.

Lemma report_unless_preserves ok q w p n :
  fs w !! p = Some n -> fs (report_unless ok q w) !! p = Some n.
Proof. destruct ok; auto. Qed.

Lemma tick_preserves w p n : fs w !! p = Some n -> fs (tick w) !! p = Some n.
Proof. auto. Qed.

Ltac keep_node :=
  repeat first
    [ assumption
    | apply report_unless_preserves
    | apply touch_if_preserves
    | apply tick_preserves ].

(** Nothing that exists is removed or rewritten by [createLogs]. *)
Lemma createLogs_world_preserves dir w p n :
  fs w !! p = Some n -> fs (createLogs_world dir w) !! p = Some n.
Proof. intros H. unfold createLogs_world. keep_node. Qed.

(** What [createLogs] adds is an empty file for a channel it opened. *)
Lemma touch_if_new ok q w p n :
  fs (touch_if ok q w) !! p = Some n ->
  fs w !! p = Some n \/ (ok = true /\ p = q /\ n = File "").
Proof.
  destruct ok; [|auto]. unfold touch_if, touch.
  destruct (fs w !! q) eqn:Hq; [auto|]. cbn [set_fs fs].
  destruct (decide (q = p)) as [->|Hne].
  - rewrite lookup_insert_eq. intros [= <-]. auto.
  - rewrite lookup_insert_ne by exact Hne. auto.
Qed.

Lemma createLogs_world_new dir w p n :
  fs (createLogs_world dir w) !! p = Some n ->
  fs w !! p = Some n \/
  (n = File "" /\ exists c, p = channel_path dir w c /\ can_open w p = true).
Proof.
  unfold createLogs_world. intros H.
  rewrite (proj1 (proj2 (proj2 (proj2 (proj2 (proj2 (proj2 (report_unless_fields _ _ _)))))))) in H.
  apply touch_if_new in H as [H|(Hok & -> & ->)];
    [|right; split; [reflexivity | exists Error; split; [reflexivity | exact Hok]]].
  cbn [tick fs] in H.
  rewrite !(proj1 (proj2 (proj2 (proj2 (proj2 (proj2 (proj2 (report_unless_fields _ _ _)))))))) in H.
  apply touch_if_new in H as [H|(Hok & -> & ->)];
    [|right; split; [reflexivity | exists Warning; split; [reflexivity | exact Hok]]].
  cbn [tick fs] in H.
  apply touch_if_new in H as [H|(Hok & -> & ->)];
    [|right; split; [reflexivity | exists Info; split; [reflexivity | exact Hok]]].
  left. exact H.
Qed.

(** A channel that could be opened has its file afterwards. *)
Lemma touch_if_file q w :
  can_open w q = true ->
  exists content, fs (touch_if (can_open w q) q w) !! q = Some (File content).
Proof. intros Hok. rewrite Hok. apply touch_file, Hok. Qed.

Lemma createLogs_world_file dir w c :
  can_open w (channel_path dir w c) = true ->
  exists content, fs (createLogs_world dir w) !! channel_path dir w c = Some (File content).
Proof.
  intros Hok. unfold createLogs_world. cbv zeta.
  destruct c.
  - destruct (touch_if_file (channel_path dir w Info) (tick w)) as [content Hc];
      [rewrite can_open_tick; exact Hok|].
    rewrite can_open_tick in Hc.
    exists content. keep_node.
  - set (w1 := tick (touch_if _ (channel_path dir w Info) (tick w))).
    assert (Hsame : can_open w1 (channel_path dir w Warning)
                    = can_open w (channel_path dir w Warning)).
    { subst w1. rewrite can_open_tick, can_open_touch_if, can_open_tick. reflexivity. }
    destruct (touch_if_file (channel_path dir w Warning) w1) as [content Hc];
      [rewrite Hsame; exact Hok|].
    rewrite Hsame in Hc.
    exists content. keep_node.
  - set (w3 := tick (report_unless _ _ (report_unless _ _ _))).
    assert (Hsame : can_open w3 (channel_path dir w Error)
                    = can_open w (channel_path dir w Error)).
    { subst w3. rewrite can_open_tick, !can_open_report_unless, can_open_touch_if,
        can_open_tick, can_open_touch_if, can_open_tick. reflexivity. }
    destruct (touch_if_file (channel_path dir w Error) w3) as [content Hc];
      [rewrite Hsame; exact Hok|].
    rewrite Hsame in Hc.
    exists content. keep_node.
Qed.

Lemma member_createLogs_members dir w c :
  member c (createLogs_members dir w) =
  opened (can_open w (channel_path dir w c)) (channel_path dir w c).
Proof. destruct c; reflexivity. Qed.

(** Directories added beforehand change neither the dates nor the paths. *)
Lemma channel_path_dirs_added dir w w1 c :
  dirs_added w w1 -> channel_path dir w1 c = channel_path dir w c.
Proof.
  intros (_ & _ & _ & Hc & Ht & Hz & _).
  assert (Hd : forall k, date_reading w1 k = date_reading w k).
  { intros k. apply date_reading_ext; [exact Hz|].
    apply reading_ext; [exact Hc | rewrite Ht; reflexivity]. }
  destruct c; unfold channel_path; rewrite Hd; reflexivity.
Qed.

End Methods.


(** ** The life of a logger *)

Section Lifetime.

Implicit Types (w : World) (st : State) (p q dir : list string) (c : channel).

(** A constructed logger, in closed form: the directory was created in
    some world [w1] that differs from [w] by new directories at most, and
    [createLogs] ran there. *)
Lemma Logger_ctor_closed_form b w st :
  Logger_ctor b (fresh w) = Returned tt st ->
  exists w1, dirs_added w w1 /\ node_at w1 (log_dir b w) = Some Dir /\
    st = {| self := createLogs_members (log_dir b w) w1;
            world := createLogs_world (log_dir b w) w1 |}.
Proof.
  intros Hctor.
  destruct (Logger_ctor_inv_returns b w st Hctor) as [st1 Hdir].
  rewrite (Logger_ctor_returns b w st1 Hdir) in Hctor. injection Hctor as <-.
  exists (world st1). split; [|split; [|reflexivity]].
  - destruct (fs_create_directories_frame (log_dir b w) (fresh w)) as [_ Hd].
    rewrite Hdir in Hd. exact Hd.
  - apply (fs_create_directories_returns _ _ _ Hdir).
Qed.

Lemma Logger_ctor_establishes_inv b w st :
  Logger_ctor b (fresh w) = Returned tt st -> Logger_inv st.
Proof.
  intros Hctor.
  destruct (Logger_ctor_closed_form b w st Hctor) as (w1 & _ & _ & ->).
  intros c p. cbn [self world]. rewrite member_createLogs_members.
  destruct (can_open w1 (channel_path (log_dir b w) w1 c)) eqn:Hok;
    cbn [opened assoc failbit]; [|discriminate].
  intros [= <-]. split; [reflexivity|].
  apply createLogs_world_file, Hok.
Qed.

Lemma append_to_keeps_file w q text p :
  (exists content, fs w !! p = Some (File content)) ->
  exists content, fs (append_to q text w) !! p = Some (File content).
Proof.
  intros [content Hp]. destruct (decide (p = q)) as [->|Hne].
  - exists (content ++ text).
    pose proof (file_content_append_to w q text content) as H.
    unfold file_content in H. rewrite Hp in H. specialize (H eq_refl).
    destruct (fs (append_to q text w) !! q) as [[|c']|]; congruence.
  - exists content. rewrite append_to_lookup_other by exact Hne. exact Hp.
Qed.

Lemma write_on_preserves_inv c message st st' :
  write_on c message st = Returned tt st' -> Logger_inv st -> Logger_inv st'.
Proof.
  intros Hrun Hinv.
  destruct (assoc (member c (self st))) as [p|] eqn:Hp.
  - destruct (Hinv c p Hp) as [Hgood _].
    rewrite (write_on_open c message st p Hp Hgood) in Hrun. injection Hrun as <-.
    intros c' p' Hp'. cbn [self world] in *.
    destruct (Hinv c' p' Hp') as [Hgood' Hfile]. split; [exact Hgood'|].
    apply append_to_keeps_file, append_to_keeps_file. exact Hfile.
  - rewrite write_on_not_open in Hrun by (unfold is_open; rewrite Hp; reflexivity).
    injection Hrun as <-. exact Hinv.
Qed.

Lemma member_after_dtor c st :
  member c {| logFile := after_close (logFile (self st));
              warningLogFile := after_close (warningLogFile (self st));
              errorLogFile := after_close (errorLogFile (self st)) |}
  = after_close (member c (self st)).
Proof. destruct c; reflexivity. Qed.

Lemma after_close_assoc s : assoc (after_close s) = None.
Proof.
  pose proof (after_close_not_open s) as H. unfold is_open in H.
  destruct (assoc (after_close s)); [discriminate | reflexivity].
Qed.

Lemma Logger_dtor_preserves_inv st st' :
  Logger_dtor st = Returned tt st' -> Logger_inv st'.
Proof.
  rewrite Logger_dtor_eq. intros [= <-] c p. cbn [self world].
  rewrite member_after_dtor, after_close_assoc. discriminate.
Qed.

Lemma write_line_on_eq c message :
  write_line_on c message = write_on c (message ++ newline).
Proof. destruct c; reflexivity. Qed.

Lemma run_call_preserves_inv k st st' :
  run_call k st = Returned tt st' -> Logger_inv st -> Logger_inv st'.
Proof.
  destruct k as [c message|c message|]; cbn [run_call].
  - apply write_on_preserves_inv.
  - rewrite write_line_on_eq. apply write_on_preserves_inv.
  - intros H _. apply (Logger_dtor_preserves_inv _ _ H).
Qed.

(** No call after construction throws. *)
Lemma run_call_returns k st : exists st', run_call k st = Returned tt st'.
Proof.
  destruct k as [c message|c message|]; cbn [run_call].
  - destruct (write_on_self c message st) as (st' & H & _). eauto.
  - rewrite write_line_on_eq.
    destruct (write_on_self c (message ++ newline) st) as (st' & H & _). eauto.
  - rewrite Logger_dtor_eq. eauto.
Qed.

Lemma run_calls_cons k ks st st1 :
  run_call k st = Returned tt st1 ->
  run_calls (k :: ks) st = run_calls ks st1.
Proof. intros H. cbn [run_calls]. unfold bind. rewrite H. reflexivity. Qed.

Lemma run_calls_returns ks : forall st, exists st', run_calls ks st = Returned tt st'.
Proof.
  induction ks as [|k ks IH]; intros st.
  - exists st. reflexivity.
  - destruct (run_call_returns k st) as [st1 H1].
    rewrite (run_calls_cons k ks st st1 H1). apply IH.
Qed.

Lemma run_calls_preserves_inv ks : forall st st',
  run_calls ks st = Returned tt st' -> Logger_inv st -> Logger_inv st'.
Proof.
  induction ks as [|k ks IH]; intros st st' Hrun Hinv.
  - injection Hrun as <-. exact Hinv.
  - destruct (run_call_returns k st) as [st1 H1].
    rewrite (run_calls_cons k ks st st1 H1) in Hrun.
    apply (IH st1 st' Hrun). apply (run_call_preserves_inv k st st1 H1 Hinv).
Qed.

(** A call never opens a stream: what is not open stays so. *)
Lemma run_call_never_opens k st st' c :
  run_call k st = Returned tt st' ->
  is_open (member c (self st)) = false -> is_open (member c (self st')) = false.
Proof.
  destruct k as [c' message|c' message|]; cbn [run_call].
  - destruct (write_on_self c' message st) as (st1 & H & Hs).
    rewrite H. intros [= <-]. rewrite Hs. auto.
  - rewrite write_line_on_eq.
    destruct (write_on_self c' (message ++ newline) st) as (st1 & H & Hs).
    rewrite H. intros [= <-]. rewrite Hs. auto.
  - rewrite Logger_dtor_eq. intros [= <-] _. cbn [self].
    rewrite member_after_dtor. apply after_close_not_open.
Qed.

Lemma run_calls_never_opens ks c : forall st st',
  run_calls ks st = Returned tt st' ->
  is_open (member c (self st)) = false -> is_open (member c (self st')) = false.
Proof.
  induction ks as [|k ks IH]; intros st st' Hrun Hclosed.
  - injection Hrun as <-. exact Hclosed.
  - destruct (run_call_returns k st) as [st1 H1].
    rewrite (run_calls_cons k ks st st1 H1) in Hrun.
    apply (IH st1 st' Hrun). apply (run_call_never_opens k st st1 c H1 Hclosed).
Qed.

(** Until the destructor runs, the stream members do not change at all. *)
Lemma run_calls_members ks : forall st st',
  forallb (fun k => negb (is_dtor k)) ks = true ->
  run_calls ks st = Returned tt st' -> self st' = self st.
Proof.
  induction ks as [|k ks IH]; intros st st' Hno Hrun.
  - injection Hrun as <-. reflexivity.
  - cbn [forallb] in Hno. apply andb_true_iff in Hno as [Hk Hks].
    destruct (run_call_returns k st) as [st1 H1].
    rewrite (run_calls_cons k ks st st1 H1) in Hrun.
    rewrite (IH st1 st' Hks Hrun).
    destruct k as [c message|c message|]; cbn [run_call is_dtor negb] in *.
    + destruct (write_on_self c message st) as (st2 & H & Hs). congruence.
    + rewrite write_line_on_eq in H1.
      destruct (write_on_self c (message ++ newline) st) as (st2 & H & Hs). congruence.
    + discriminate.
Qed.

(** An outcome that is a normal return is the return of its final state. *)
Lemma returns_final (o : outcome unit) :
  returns o = true -> o = Returned tt (final o).
Proof. destruct o as [[] st|e st]; [reflexivity | discriminate]. Qed.

Lemma run_calls_final ks st : run_calls ks st = Returned tt (final (run_calls ks st)).
Proof. destruct (run_calls_returns ks st) as [st' H]. rewrite H. reflexivity. Qed.

Lemma string_app_assoc (s1 s2 s3 : string) : (s1 ++ s2) ++ s3 = s1 ++ s2 ++ s3.
Proof.
  induction s1 as [|a s1 IH]; [reflexivity|].
  change (String a ((s1 ++ s2) ++ s3) = String a (s1 ++ s2 ++ s3)).
  rewrite IH. reflexivity.
Qed.

End Lifetime.

(** ** File names and diagnostic lines *)

Section Names.

Implicit Types (w : World) (p q dir : list string) (c : channel) (s t : string).

Lemma has_space_app s t : has_space (s ++ t) = has_space s || has_space t.
Proof.
  induction s as [|a s IH]; [reflexivity|].
  change (has_space (String a s ++ t)) with (Ascii.eqb a " " || has_space (s ++ t)).
  rewrite IH. cbn [has_space]. apply orb_assoc.
Qed.

Lemma digit_char_not_space (d : Z) :
  0 <= d <= 9 -> Ascii.eqb (digit_char d) " " = false.
Proof.
  intros Hd.
  assert (H : d = 0 \/ d = 1 \/ d = 2 \/ d = 3 \/ d = 4 \/
              d = 5 \/ d = 6 \/ d = 7 \/ d = 8 \/ d = 9) by lia.
  repeat (destruct H as [->|H]; [reflexivity|]). subst d. reflexivity.
Qed.

Lemma dec_digits_no_space (fuel : nat) : forall n acc,
  has_space acc = false -> has_space (dec_digits fuel n acc) = false.
Proof.
  induction fuel as [|fuel IH]; intros n acc Hacc; cbn [dec_digits].
  - cbn [has_space]. rewrite digit_char_not_space, Hacc; [reflexivity|].
    pose proof (Z.mod_pos_bound n 10 ltac:(lia)). lia.
  - assert (Hacc' : has_space (String (digit_char (n mod 10)) acc) = false).
    { cbn [has_space]. rewrite digit_char_not_space, Hacc; [reflexivity|].
      pose proof (Z.mod_pos_bound n 10 ltac:(lia)). lia. }
    destruct (n <? 10); [exact Hacc' | apply IH, Hacc'].
Qed.

Lemma dec_no_space (n : Z) : has_space (dec n) = false.
Proof.
  unfold dec, dec_nonneg. destruct (n <? 0).
  - cbn [has_space]. rewrite dec_digits_no_space; reflexivity.
  - apply dec_digits_no_space. reflexivity.
Qed.

Lemma dec02_no_space (n : Z) : has_space (dec02 n) = false.
Proof.
  unfold dec02. destruct ((0 <=? n) && (n <? 10)).
  - cbn [has_space]. rewrite dec_no_space. reflexivity.
  - apply dec_no_space.
Qed.

(** A date, as [currentDateFormatted] prints it, has no space in it. *)
Lemma date_text_no_space (t : tm) : has_space (strftime_text date_format t) = false.
Proof.
  change (strftime_text date_format t)
    with (dec (tm_year t + 1900) ++ String "-" (dec02 (tm_mon t + 1) ++ String "-" (dec02 (tm_mday t) ++ ""))).
  rewrite has_space_app, dec_no_space.
  cbn [has_space orb]. rewrite has_space_app, dec02_no_space.
  cbn [has_space orb]. rewrite has_space_app, dec02_no_space. reflexivity.
Qed.

Lemma date_reading_no_space w k : has_space (date_reading w k) = false.
Proof.
  unfold date_reading, format_instant, strftime.
  destruct (decide _); cbn [buffer_string]; [apply date_text_no_space | reflexivity].
Qed.

(** So the name of the info file differs from the other two names. *)
Lemma file_name_Info_other_text s t c :
  has_space s = false -> has_space t = false ->
  c <> Info -> file_name Info s <> file_name c t.
Proof.
  intros Hs Ht Hc Heq. apply (f_equal has_space) in Heq.
  destruct c; [congruence| |]; cbn [file_name] in Heq;
    rewrite !has_space_app, Hs, Ht in Heq; discriminate.
Qed.

Lemma file_name_Info_other w k k' c :
  c <> Info ->
  file_name Info (date_reading w k) <> file_name c (date_reading w k').
Proof.
  intros Hc. apply file_name_Info_other_text; [| |exact Hc]; apply date_reading_no_space.
Qed.

Lemma path_div_inj dir s t : dir /: s = dir /: t -> s = t.
Proof. unfold path_div. intros H. apply app_inv_head in H. congruence. Qed.

Lemma channel_path_Info_other dir w c :
  c <> Info -> channel_path dir w Info <> channel_path dir w c.
Proof.
  intros Hc Heq. rewrite !channel_path_file_name in Heq.
  apply path_div_inj in Heq. revert Heq. apply file_name_Info_other, Hc.
Qed.

Lemma path_string_aux_snoc dir s :
  path_string_aux (dir /: s) = path_string_aux dir ++ String "/" s.
Proof.
  unfold path_div. induction dir as [|a dir IH].
  - cbn [app path_string_aux].
    change (String "/" (s ++ "") = String "/" s).
    f_equal. induction s as [|x s IHs]; [reflexivity|].
    change (String x (s ++ "") = String x s). rewrite IHs. reflexivity.
  - cbn [app path_string_aux]. rewrite IH.
    change (String "/" (a ++ path_string_aux dir ++ String "/" s)
            = String "/" ((a ++ path_string_aux dir) ++ String "/" s)).
    rewrite string_app_assoc. reflexivity.
Qed.

Lemma path_string_snoc dir s :
  path_string (dir /: s) = path_string_aux dir ++ String "/" s.
Proof.
  rewrite <- path_string_aux_snoc. unfold path_div, path_string.
  destruct dir; reflexivity.
Qed.

Lemma quoted_body_inj s : forall t, quoted_body s = quoted_body t -> s = t.
Proof.
  induction s as [|a s IH]; intros [|b t]; cbn [quoted_body]; intros H.
  - reflexivity.
  - destruct (Ascii.eqb b dquote || Ascii.eqb b backslash) eqn:Hb.
    + discriminate.
    + injection H as H _. subst b. cbn in Hb. discriminate.
  - destruct (Ascii.eqb a dquote || Ascii.eqb a backslash) eqn:Ha.
    + discriminate.
    + injection H as H _. subst a. cbn in Ha. discriminate.
  - destruct (Ascii.eqb a dquote || Ascii.eqb a backslash) eqn:Ha,
             (Ascii.eqb b dquote || Ascii.eqb b backslash) eqn:Hb.
    + injection H as -> H. f_equal. apply IH, H.
    + injection H as <- _. cbn in Hb. discriminate.
    + injection H as -> _. cbn in Ha. discriminate.
    + injection H as -> H. f_equal. apply IH, H.
Qed.

(** Two files of one directory are never reported by the same line. *)
Lemma open_failure_line_inj dir s t :
  open_failure_line (dir /: s) = open_failure_line (dir /: t) -> s = t.
Proof.
  unfold open_failure_line, quoted. intros H.
  apply String.app_inj in H. injection H as H.
  apply quoted_body_inj in H. rewrite !path_string_snoc in H.
  apply String.app_inj in H. congruence.
Qed.

End Names.

(* ===================================================================== *)
(** * The claims *)
(* ===================================================================== *)

(** ** TimeManager *)

Lemma time_reading_matches (w : World) (k : nat) :
  matches time_pattern (time_reading w k) = true.
Proof.
  unfold time_reading, format_instant.
  rewrite strftime_time_fits by apply localtime_in_range.
  cbn [buffer_string]. apply time_text_matches, localtime_in_range.
Qed.








(** ** Logger: writing *)

(** C3.  A write on a channel whose stream is not open, in either
    variant, returns normally (no exception leaves it), leaves the file
    system and the stream members as they are, does not read the clock,
    and puts exactly one line on standard error. *)
Theorem write_not_open_reports (st : State) (c : channel) (message : string) :
  is_open (member c (self st)) = false ->
  let st' := {| self := self st; world := add_cerr (not_open_message c) (world st) |} in
  write_on c message st = Returned tt st' /\
  write_line_on c message st = Returned tt st' /\
  fs (world st') = fs (world st) /\
  ticks (world st') = ticks (world st) /\
  cerr (world st') = (cerr (world st) ++ [not_open_message c])%list.
Proof.
  intros Hclosed st'. split; [apply write_on_not_open, Hclosed|].
  split; [rewrite write_line_on_eq; apply write_on_not_open, Hclosed|].
  repeat split.
Qed.

(** The theorem on a logger that was never constructed. *)
Lemma write_not_open_reports_witness :
  is_open (member Warning (self (fresh (demo_world 0 1 allow allow)))) = false /\
  cerr (world (final (writeWarningLine "disk low" (fresh (demo_world 0 1 allow allow)))))
  = ["Error: warning log file is not open."].
Proof.
  split; [reflexivity|].
  destruct (write_not_open_reports (fresh (demo_world 0 1 allow allow)) Warning "disk low")
    as (_ & H & _); [reflexivity|].
  change (writeWarningLine "disk low") with (write_line_on Warning "disk low").
  rewrite H. reflexivity.
Defined.

(** C1.  On a logger that was constructed and then used in any way, at
    an instant at which [localtime] succeeds, the line variant of a
    channel whose stream is open returns normally and appends to the
    channel's file the time of the clock reading it makes (which matches
    HH:MM:SS), one space, the message as it is, and one line feed
    (character 10); no other file, nor standard error, nor any stream
    member changes. *)
Theorem write_line_appends (b : bool) (w : World) (ks : list call)
    (c : channel) (message : string) (p : list string) :
  returns (Logger_ctor b (fresh w)) = true ->
  let st := final (run_calls ks (final (Logger_ctor b (fresh w)))) in
  assoc (member c (self st)) = Some p ->
  localtime_defined (utc_offset (world st)) (reading (world st) 0) = true ->
  exists content,
    file_content (world st) p = Some content /\
    returns (write_line_on c message st) = true /\
    let st' := final (write_line_on c message st) in
    file_content (world st') p
      = Some (content ++ time_reading (world st) 0 ++ " " ++ message ++ String "010" "") /\
    matches time_pattern (time_reading (world st) 0) = true /\
    (forall q, q <> p -> fs (world st') !! q = fs (world st) !! q) /\
    cerr (world st') = cerr (world st) /\
    self st' = self st.
Proof.
  intros Hctor st Hp _.
  assert (Hinv : Logger_inv st).
  { apply (run_calls_preserves_inv ks _ _ (run_calls_final ks _)).
    apply (Logger_ctor_establishes_inv b w). apply returns_final, Hctor. }
  destruct (Hinv c p Hp) as [Hgood [content Hfile]].
  exists content.
  split; [unfold file_content; rewrite Hfile; reflexivity|].
  change (String "010" "") with newline.
  rewrite write_line_on_eq, (write_on_open c _ st p Hp Hgood).
  split; [reflexivity|]. cbn [final world self].
  split.
  - rewrite <- (string_app_assoc content).
    apply file_content_append_to, file_content_append_to.
    unfold file_content. cbn [tick fs]. rewrite Hfile. reflexivity.
  - split; [apply time_reading_matches|]. split; [|split; [|reflexivity]].
    + intros q Hne. rewrite !append_to_lookup_other by exact Hne. reflexivity.
    + destruct (append_to_fields
                  (append_to p (time_reading (world st) 0) (tick (world st)))
                  p (" " ++ message ++ newline)) as (_ & _ & _ & _ & _ & _ & ->).
      destruct (append_to_fields (tick (world st)) p (time_reading (world st) 0))
        as (_ & _ & _ & _ & _ & _ & ->).
      reflexivity.
Qed.

(** The theorem on the demo machine: a logger is constructed in
    [/home/me/log], one line is written, and a second line follows it in
    the same file, each ended by a line feed. *)
Lemma write_line_appends_witness :
  let w := demo_world 86399 1 allow allow in
  let p := ["home"; "me"; "log"; "1970-01-01.log"] in
  let st := final (run_calls [CallWriteLine Info "build started"]
                     (final (Logger_ctor false (fresh w)))) in
  returns (Logger_ctor false (fresh w)) = true /\
  assoc (member Info (self st)) = Some p /\
  localtime_defined (utc_offset (world st)) (reading (world st) 0) = true /\
  file_content (world st) p = Some ("00:00:02 build started" ++ String "010" "") /\
  file_content (world (final (write_line_on Info "compile failed" st))) p
    = Some ("00:00:02 build started" ++ String "010"
              ("00:00:03 compile failed" ++ String "010" "")).
Proof.
  intros w p st.
  assert (H1 : returns (Logger_ctor false (fresh w)) = true) by (vm_compute; reflexivity).
  assert (H2 : assoc (member Info (self st)) = Some p) by (vm_compute; reflexivity).
  assert (H3 : localtime_defined (utc_offset (world st)) (reading (world st) 0) = true)
    by (vm_compute; reflexivity).
  assert (H4 : file_content (world st) p
               = Some ("00:00:02 build started" ++ String "010" ""))
    by (vm_compute; reflexivity).
  split; [exact H1|]. split; [exact H2|]. split; [exact H3|]. split; [exact H4|].
  destruct (write_line_appends false w [CallWriteLine Info "build started"]
              Info "compile failed" p H1 H2 H3) as (content & Hc & _ & Hline & _).
  fold st in Hc, Hline. rewrite H4 in Hc. injection Hc as <-.
  cbv zeta in Hline. rewrite Hline. vm_compute. reflexivity.
Defined.

(** ** Logger: construction *)

Section Construction.

Implicit Types (w : World) (st : State) (p q dir : list string) (c : channel).

(** Construction returns exactly when the directory could be created. *)
Lemma Logger_ctor_returns_iff b w :
  returns (Logger_ctor b (fresh w)) = returns (fs_create_directories (log_dir b w) (fresh w)).
Proof.
  destruct (fs_create_directories (log_dir b w) (fresh w)) as [[] st1|e st1] eqn:Hdir.
  - rewrite (Logger_ctor_returns b w st1 Hdir). reflexivity.
  - rewrite (Logger_ctor_throws b w e st1 Hdir). reflexivity.
Qed.

(** The constructed logger, in terms of the world [w1] in which the
    directory has just been created. *)
Lemma Logger_ctor_final b w :
  returns (Logger_ctor b (fresh w)) = true ->
  let w1 := world (final (fs_create_directories (log_dir b w) (fresh w))) in
  dirs_added w w1 /\ node_at w1 (log_dir b w) = Some Dir /\
  final (Logger_ctor b (fresh w)) =
    {| self := createLogs_members (log_dir b w) w1;
       world := createLogs_world (log_dir b w) w1 |}.
Proof.
  intros Hret w1. rewrite Logger_ctor_returns_iff in Hret.
  apply returns_final in Hret. fold w1 in Hret.
  split; [apply fs_create_directories_frame|].
  split; [apply (fs_create_directories_returns _ _ _ Hret)|].
  rewrite (Logger_ctor_returns b w _ Hret). reflexivity.
Qed.

(** Each stream is opened, or not, on its own path as the system answers
    for that path. *)
Lemma Logger_ctor_member b w c :
  returns (Logger_ctor b (fresh w)) = true ->
  let w1 := world (final (fs_create_directories (log_dir b w) (fresh w))) in
  member c (self (final (Logger_ctor b (fresh w)))) =
  opened (can_open w1 (channel_path (log_dir b w) w c)) (channel_path (log_dir b w) w c).
Proof.
  intros Hret w1. destruct (Logger_ctor_final b w Hret) as (Hd & _ & ->).
  fold w1 in Hd |- *. cbn [self]. rewrite member_createLogs_members.
  rewrite (channel_path_dirs_added _ w w1 c Hd). reflexivity.
Qed.

Lemma open_diagnostics_createLogs dir w w1 :
  dirs_added w w1 ->
  createLogs_diagnostics dir w1 = open_diagnostics dir w (createLogs_members dir w1).
Proof.
  intros Hd. unfold createLogs_diagnostics, open_diagnostics, diagnostic_path.
  cbn [map List.concat member createLogs_members logFile warningLogFile errorLogFile].
  rewrite !is_open_opened, !(channel_path_dirs_added dir w w1 _ Hd), app_nil_r.
  reflexivity.
Qed.

(** What construction prints. *)
Lemma Logger_ctor_cerr b w :
  returns (Logger_ctor b (fresh w)) = true ->
  cerr (world (final (Logger_ctor b (fresh w)))) =
  (cerr w ++ open_diagnostics (log_dir b w) w (self (final (Logger_ctor b (fresh w)))))%list.
Proof.
  intros Hret. destruct (Logger_ctor_final b w Hret) as (Hd & _ & ->).
  cbn [self world]. rewrite createLogs_world_cerr.
  rewrite <- (open_diagnostics_createLogs _ w _ Hd).
  destruct Hd as (_ & _ & _ & _ & _ & _ & -> & _). reflexivity.
Qed.


(** Nothing that exists is removed or rewritten by construction. *)
Lemma Logger_ctor_preserves b w p n :
  returns (Logger_ctor b (fresh w)) = true ->
  fs w !! p = Some n -> fs (world (final (Logger_ctor b (fresh w)))) !! p = Some n.
Proof.
  intros Hret Hp. destruct (Logger_ctor_final b w Hret) as (Hd & _ & ->).
  cbn [world]. apply createLogs_world_preserves.
  destruct Hd as (_ & _ & _ & _ & _ & _ & _ & Hkeep & _). apply Hkeep, Hp.
Qed.

(** A stream association found after some calls was made at construction. *)
Lemma run_calls_assoc ks c p : forall st,
  assoc (member c (self (final (run_calls ks st)))) = Some p ->
  assoc (member c (self st)) = Some p.
Proof.
  induction ks as [|k ks IH]; intros st H; [exact H|].
  destruct (run_call_returns k st) as [st1 H1].
  rewrite (run_calls_cons k ks st st1 H1) in H. apply IH in H.
  destruct k as [c' message|c' message|]; cbn [run_call] in H1.
  - destruct (write_on_self c' message st) as (st2 & H2 & Hs). congruence.
  - rewrite write_line_on_eq in H1.
    destruct (write_on_self c' (message ++ newline) st) as (st2 & H2 & Hs). congruence.
  - rewrite Logger_dtor_eq in H1. injection H1 as <-. cbn [self] in H.
    rewrite member_after_dtor, after_close_assoc in H. discriminate.
Qed.

(** The line variant on an open stream of a logger in a good state. *)
Lemma write_line_file st c message p content :
  Logger_inv st -> assoc (member c (self st)) = Some p ->
  file_content (world st) p = Some content ->
  file_content (world (final (write_line_on c message st))) p
  = Some (content ++ time_reading (world st) 0 ++ " " ++ message ++ newline).
Proof.
  intros Hinv Hp Hc. destruct (Hinv c p Hp) as [Hgood _].
  rewrite write_line_on_eq, (write_on_open c _ st p Hp Hgood). cbn [final world].
  rewrite <- (string_app_assoc content).
  apply file_content_append_to, file_content_append_to. exact Hc.
Qed.

End Construction.

(** C4.  When the log directory cannot be created, construction ends by
    throwing what [create_directories] threw; [createLogs] never runs: no
    stream is opened, no file is created or changed, the clock is not
    read and nothing is printed. *)
Theorem ctor_propagates_directory_error (b : bool) (w : World) :
  returns (fs_create_directories (log_dir b w) (fresh w)) = false ->
  let o := Logger_ctor b (fresh w) in
  returns o = false /\
  o = fs_create_directories (log_dir b w) (fresh w) /\
  self (final o) = Logger_members_default /\
  (forall c, is_open (member c (self (final o))) = false) /\
  (forall p content,
     fs (world (final o)) !! p = Some (File content) <-> fs w !! p = Some (File content)) /\
  ticks (world (final o)) = ticks w /\
  cerr (world (final o)) = cerr w.
Proof.
  intros Hfail o. subst o.
  destruct (fs_create_directories (log_dir b w) (fresh w)) as [[] st1|e st1] eqn:Hdir;
    [discriminate|].
  rewrite (Logger_ctor_throws b w e st1 Hdir). cbn [final returns].
  destruct (fs_create_directories_frame (log_dir b w) (fresh w)) as [Hs Hd].
  rewrite Hdir in Hs, Hd. cbn [final fresh self world] in Hs, Hd.
  destruct Hd as (_ & _ & _ & _ & Ht & _ & Hcerr & Hkeep & Hnew).
  split; [reflexivity|]. split; [reflexivity|]. split; [exact Hs|].
  split; [intros c; rewrite Hs; destruct c; reflexivity|].
  split; [|split; [exact Ht | exact Hcerr]].
  intros p content. split.
  - intros H. destruct (Hnew p _ H) as [H'|H']; [exact H' | discriminate].
  - apply Hkeep.
Qed.

(** The theorem on the demo machine, where no directory may be created and
    [/home/me/log] does not exist. *)
Lemma ctor_propagates_directory_error_witness :
  let w := demo_world 86399 1 deny allow in
  returns (fs_create_directories (log_dir false w) (fresh w)) = false /\
  returns (Logger_ctor false (fresh w)) = false /\
  forall c, is_open (member c (self (final (Logger_ctor false (fresh w))))) = false.
Proof.
  intros w.
  assert (H : returns (fs_create_directories (log_dir false w) (fresh w)) = false)
    by (vm_compute; reflexivity).
  split; [exact H|].
  destruct (ctor_propagates_directory_error false w H) as (H1 & _ & _ & H2 & _).
  split; [exact H1 | exact H2].
Defined.



(** C10.  When the info stream is not open after construction, the line
    printed for it is the open-failure line of the warning file's path:
    standard error gains the warning stream's own line (if that stream
    failed too), then that line for the info stream, then the error
    stream's line (if it failed).  The line differs from the one that
    would name the info file, and the info file is named by no line. *)
Theorem info_failure_names_warning_path (b : bool) (w : World) :
  returns (Logger_ctor b (fresh w)) = true ->
  let st := final (Logger_ctor b (fresh w)) in
  let dir := log_dir b w in
  is_open (member Info (self st)) = false ->
  cerr (world st) =
    (cerr w
     ++ (if is_open (member Warning (self st)) then []
         else [open_failure_line (channel_path dir w Warning)])
     ++ [open_failure_line (channel_path dir w Warning)]
     ++ (if is_open (member Error (self st)) then []
         else [open_failure_line (channel_path dir w Error)]))%list /\
  open_failure_line (channel_path dir w Warning)
    <> open_failure_line (channel_path dir w Info) /\
  ~ In (open_failure_line (channel_path dir w Info)) (open_diagnostics dir w (self st)).
Proof.
  intros Hret st dir Hinfo.
  assert (Hne : forall c, c <> Info ->
            open_failure_line (channel_path dir w c)
            <> open_failure_line (channel_path dir w Info)).
  { intros c Hc Heq. rewrite !channel_path_file_name in Heq.
    apply open_failure_line_inj in Heq. symmetry in Heq. revert Heq.
    apply file_name_Info_other, Hc. }
  split; [|split; [apply Hne; discriminate|]].
  - subst st. rewrite (Logger_ctor_cerr b w Hret). fold dir.
    unfold open_diagnostics. cbn [map List.concat diagnostic_path].
    rewrite Hinfo, app_nil_r. reflexivity.
  - unfold open_diagnostics. cbn [map List.concat diagnostic_path].
    rewrite Hinfo, app_nil_r. intros Hin.
    apply in_app_or in Hin as [Hin|Hin];
      [|apply in_app_or in Hin as [Hin|Hin]].
    + destruct (is_open (member Warning (self st))); [destruct Hin|].
      destruct Hin as [Hin|[]]. revert Hin. apply Hne. discriminate.
    + destruct Hin as [Hin|[]]. revert Hin. apply Hne. discriminate.
    + destruct (is_open (member Error (self st))); [destruct Hin|].
      destruct Hin as [Hin|[]]. revert Hin. apply Hne. discriminate.
Qed.

(** The theorem on the demo machine when only the info file may not be
    opened: the one line printed names the warning file. *)
Lemma info_failure_names_warning_path_witness :
  let w := demo_world 86399 0 allow
             (fun p => negb (bool_decide (p = ["home"; "me"; "log"; "1970-01-01.log"]))) in
  let st := final (Logger_ctor false (fresh w)) in
  returns (Logger_ctor false (fresh w)) = true /\
  is_open (member Info (self st)) = false /\
  cerr (world st) =
    [open_failure_prefix
     ++ quoted (path_string ["home"; "me"; "log"; "1970-01-01 Warnings.log"])].
Proof.
  intros w st.
  assert (H1 : returns (Logger_ctor false (fresh w)) = true) by (vm_compute; reflexivity).
  assert (H2 : is_open (member Info (self st)) = false) by (vm_compute; reflexivity).
  split; [exact H1|]. split; [exact H2|].
  destruct (info_failure_names_warning_path false w H1 H2) as (H & _).
  subst st. rewrite H. vm_compute. reflexivity.
Defined.

(** C8.  The flag selects the directory: [cwd/log] when true,
    [parent(cwd)/log] when false, and the default argument is false.  After
    construction that directory exists and every open stream is on a file
    directly in it. *)
Theorem ctor_selects_directory (b : bool) (w : World) :
  returns (Logger_ctor b (fresh w)) = true ->
  let st := final (Logger_ctor b (fresh w)) in
  let dir := if b then cwd w /: "log" else parent_path (cwd w) /: "log" in
  resolve_log_dir b (fresh w) = Returned dir (fresh w) /\
  Logger_ctor_default = Logger_ctor false /\
  node_at (world st) dir = Some Dir /\
  (forall c p, assoc (member c (self st)) = Some p ->
     parent_path p = dir /\ exists name, p = dir /: name).
Proof.
  intros Hret st dir.
  assert (Hdir : log_dir b w = dir) by reflexivity.
  split; [rewrite resolve_log_dir_eq; reflexivity|]. split; [reflexivity|].
  destruct (Logger_ctor_final b w Hret) as (_ & Hnode & Hst).
  rewrite Hdir in Hnode, Hst. split.
  - subst st. rewrite Hst. cbn [world].
    assert (Hsnoc : exists base, dir = base /: "log") by (subst dir; destruct b; eauto).
    destruct Hsnoc as [base Hbase]. rewrite Hbase in Hnode |- *.
    rewrite node_at_snoc in Hnode |- *.
    apply createLogs_world_preserves, Hnode.
  - intros c p Hp. subst st. rewrite (Logger_ctor_member b w c Hret), Hdir in Hp.
    destruct (can_open _ _); cbn [opened assoc] in Hp; [|discriminate].
    injection Hp as <-. rewrite channel_path_file_name. split; [|eauto].
    unfold parent_path, path_div. apply removelast_last.
Qed.

(** The theorem on the demo machine, with and without the flag. *)
Lemma ctor_selects_directory_witness :
  let w := demo_world 86399 0 allow allow in
  returns (Logger_ctor true (fresh w)) = true /\
  returns (Logger_ctor false (fresh w)) = true /\
  node_at (world (final (Logger_ctor true (fresh w)))) ["home"; "me"; "build"; "log"] = Some Dir /\
  node_at (world (final (Logger_ctor false (fresh w)))) ["home"; "me"; "log"] = Some Dir.
Proof.
  intros w.
  assert (H1 : returns (Logger_ctor true (fresh w)) = true) by (vm_compute; reflexivity).
  assert (H2 : returns (Logger_ctor false (fresh w)) = true) by (vm_compute; reflexivity).
  split; [exact H1|]. split; [exact H2|]. split.
  - apply (ctor_selects_directory true w H1).
  - apply (ctor_selects_directory false w H2).
Defined.

(** C2, as amended.  [createLogs] reads the clock three times, once for
    each file name, and each file is named by the date of its own reading.
    When the three readings show one date, the three names carry that one
    date.  No call after construction changes the file a stream is on. *)
Theorem file_names_use_own_date (b : bool) (w : World) (ks : list call) :
  returns (Logger_ctor b (fresh w)) = true ->
  let st := final (Logger_ctor b (fresh w)) in
  let dir := log_dir b w in
  ticks (world st) = (ticks w + 3)%nat /\
  (forall c p, assoc (member c (self st)) = Some p ->
     p = dir /: file_name c (date_reading w (reading_of c))) /\
  (date_reading w 1 = date_reading w 0 -> date_reading w 2 = date_reading w 0 ->
   forall c p, assoc (member c (self st)) = Some p ->
     p = dir /: file_name c (date_reading w 0)) /\
  (forall c p, assoc (member c (self (final (run_calls ks st)))) = Some p ->
     assoc (member c (self st)) = Some p).
Proof.
  intros Hret st dir.
  assert (Hpath : forall c p, assoc (member c (self st)) = Some p ->
            p = dir /: file_name c (date_reading w (reading_of c))).
  { intros c p Hp. subst st. rewrite (Logger_ctor_member b w c Hret) in Hp.
    destruct (can_open _ _); cbn [opened assoc] in Hp; [|discriminate].
    injection Hp as <-. apply channel_path_file_name. }
  split; [|split; [exact Hpath|split]].
  - destruct (Logger_ctor_final b w Hret) as (Hd & _ & Hst). subst st. rewrite Hst.
    cbn [world]. rewrite createLogs_world_ticks.
    destruct Hd as (_ & _ & _ & _ & -> & _). reflexivity.
  - intros H1 H2 c p Hp. rewrite (Hpath c p Hp).
    destruct c; cbn [reading_of]; rewrite ?H1, ?H2; reflexivity.
  - intros c p. apply run_calls_assoc.
Qed.

(** The theorem on the demo machine with a clock that stands still. *)
Lemma file_names_use_own_date_witness :
  let w := demo_world 86399 0 allow allow in
  let st := final (Logger_ctor false (fresh w)) in
  returns (Logger_ctor false (fresh w)) = true /\
  ticks (world st) = 3%nat /\
  forall c p, assoc (member c (self st)) = Some p ->
    p = ["home"; "me"; "log"] /: file_name c "1970-01-01".
Proof.
  intros w st.
  assert (H : returns (Logger_ctor false (fresh w)) = true) by (vm_compute; reflexivity).
  split; [exact H|].
  destruct (file_names_use_own_date false w [] H) as (Ht & _ & Hsame & _).
  split; [exact Ht|].
  apply Hsame; vm_compute; reflexivity.
Defined.

Lemma string_length_app (s t : string) :
  String.length (s ++ t) = (String.length s + String.length t)%nat.
Proof.
  induction s as [|a s IH]; [reflexivity|].
  change (S (String.length (s ++ t)) = S (String.length s + String.length t)).
  rewrite IH. reflexivity.
Qed.

(** C2 as stated fails when midnight passes between the readings: with
    the clock at 23:59:59 UTC on 1970-01-01 and one second per reading,
    the clock is read three times and the info file carries the date of
    the first day while the other two carry that of the second, so no one
    date names the three files. *)
Lemma file_names_across_midnight :
  let w := demo_world 86399 1 allow allow in
  let st := final (Logger_ctor false (fresh w)) in
  returns (Logger_ctor false (fresh w)) = true /\
  ticks (world st) = 3%nat /\
  assoc (logFile (self st)) = Some ["home"; "me"; "log"; "1970-01-01.log"] /\
  assoc (warningLogFile (self st)) = Some ["home"; "me"; "log"; "1970-01-02 Warnings.log"] /\
  assoc (errorLogFile (self st)) = Some ["home"; "me"; "log"; "1970-01-02 Errors.log"] /\
  ~ (exists date, forall c,
       assoc (member c (self st)) = Some (["home"; "me"; "log"] /: file_name c date)).
Proof.
  intros w st.
  assert (HI : assoc (logFile (self st)) = Some ["home"; "me"; "log"; "1970-01-01.log"])
    by (vm_compute; reflexivity).
  assert (HW : assoc (warningLogFile (self st))
               = Some ["home"; "me"; "log"; "1970-01-02 Warnings.log"])
    by (vm_compute; reflexivity).
  split; [vm_compute; reflexivity|]. split; [vm_compute; reflexivity|].
  split; [exact HI|]. split; [exact HW|]. split; [vm_compute; reflexivity|].
  intros [date Hdate].
  pose proof (Hdate Info) as H1. pose proof (Hdate Warning) as H2.
  cbn [member] in H1, H2. rewrite HI in H1. rewrite HW in H2.
  cbn [path_div app file_name] in H1, H2.
  injection H1 as H1. injection H2 as H2.
  assert (Hlen : String.length date = 10%nat).
  { apply (f_equal String.length) in H1. rewrite string_length_app in H1.
    cbn [String.length] in H1. lia. }
  do 11 (destruct date as [|? date]; [try discriminate Hlen|]);
    [|discriminate Hlen].
  vm_compute in H1. vm_compute in H2. congruence.
Qed.

(** ** Logger: the life of a channel *)

Lemma Logger_dtor_idempotent (st : State) :
  Logger_dtor (final (Logger_dtor st)) = Returned tt (final (Logger_dtor st)).
Proof.
  rewrite (Logger_dtor_eq st). cbn [final]. rewrite Logger_dtor_eq.
  cbn [self world logFile warningLogFile errorLogFile].
  rewrite !after_close_idem. reflexivity.
Qed.

(** C6.  Before the constructor body runs a stream is as declared, not
    open.  Construction leaves it open on a file and in a good state, or
    not open and failed.  While only writes are called the stream members
    do not change; whatever is called, a stream that is not open never
    becomes open again, after the destructor neither.  The destructor
    returns, leaves the world as it is, ends the association of each open
    stream and leaves the others untouched, and running it again changes
    nothing.  A write on a stream that is not open only prints its
    diagnostic. *)
Theorem channel_life (b : bool) (w : World) (ks ks' : list call) (c : channel) :
  returns (Logger_ctor b (fresh w)) = true ->
  let st0 := final (Logger_ctor b (fresh w)) in
  let st := final (run_calls ks st0) in
  let dead := final (Logger_dtor st) in
  member c (self (fresh w)) = ofstream_default /\
  ((exists p, member c (self st0) = {| assoc := Some p; failbit := false |}) \/
   member c (self st0) = {| assoc := None; failbit := true |}) /\
  (forallb (fun k => negb (is_dtor k)) ks = true -> self st = self st0) /\
  (is_open (member c (self st0)) = false -> is_open (member c (self st)) = false) /\
  returns (Logger_dtor st) = true /\
  world dead = world st /\
  member c (self dead) =
    (if is_open (member c (self st))
     then {| assoc := None; failbit := failbit (member c (self st)) |}
     else member c (self st)) /\
  Logger_dtor dead = Returned tt dead /\
  is_open (member c (self (final (run_calls ks' dead)))) = false /\
  (is_open (member c (self st)) = false ->
   forall message,
     write_on c message st =
     Returned tt {| self := self st; world := add_cerr (not_open_message c) (world st) |}).
Proof.
  intros Hret st0 st dead.
  split; [destruct c; reflexivity|].
  split.
  { subst st0. rewrite (Logger_ctor_member b w c Hret).
    destruct (can_open _ _); cbn [opened]; [left; eauto | right; reflexivity]. }
  split; [intros Hno; apply (run_calls_members ks st0 st Hno), run_calls_final|].
  split; [apply (run_calls_never_opens ks c st0 st), run_calls_final|].
  assert (Hdead : dead = {| self := {| logFile := after_close (logFile (self st));
                                       warningLogFile := after_close (warningLogFile (self st));
                                       errorLogFile := after_close (errorLogFile (self st)) |};
                            world := world st |}).
  { subst dead. rewrite Logger_dtor_eq. reflexivity. }
  split; [rewrite Logger_dtor_eq; reflexivity|].
  split; [rewrite Hdead; reflexivity|].
  split; [rewrite Hdead; cbn [self]; rewrite member_after_dtor; reflexivity|].
  split; [apply Logger_dtor_idempotent|].
  split.
  - apply (run_calls_never_opens ks' c dead _ (run_calls_final ks' dead)).
    rewrite Hdead. cbn [self]. rewrite member_after_dtor. apply after_close_not_open.
  - intros Hclosed message. apply write_on_not_open, Hclosed.
Qed.

(** The theorem on the demo machine when the warning file may not be
    opened: the warning stream is failed from construction on and the info
    stream is open until the destructor runs. *)
Lemma channel_life_witness :
  let w := demo_world 86399 0 allow
             (fun p => negb (bool_decide (p = ["home"; "me"; "log"; "1970-01-01 Warnings.log"]))) in
  let ks := [CallWriteLine Info "build started"; CallWriteLine Warning "disk low"] in
  let st := final (run_calls ks (final (Logger_ctor false (fresh w)))) in
  returns (Logger_ctor false (fresh w)) = true /\
  is_open (member Warning (self st)) = false /\
  is_open (member Info (self st)) = true /\
  is_open (member Info (self (final (run_calls [CallWriteLine Info "too late"]
                                       (final (Logger_dtor st)))))) = false.
Proof.
  intros w ks st.
  assert (H : returns (Logger_ctor false (fresh w)) = true) by (vm_compute; reflexivity).
  split; [exact H|].
  destruct (channel_life false w ks [CallWriteLine Info "too late"] Warning H)
    as (_ & _ & _ & Hw & _).
  destruct (channel_life false w ks [CallWriteLine Info "too late"] Info H)
    as (_ & _ & _ & _ & _ & _ & _ & _ & Hi & _).
  split; [apply Hw; vm_compute; reflexivity|].
  split; [vm_compute; reflexivity | exact Hi].
Defined.

(** ** Logger: a second logger *)

(** C7.  Where the working directory and the log directory exist, and
    [localtime] succeeds at the readings of the clock, construction
    returns; it keeps every file and directory that exists, content
    included.  A stream it opened on a file that was there holds that
    file's content, and its line variant puts the new line, ended by a
    line feed, after that content.  And the streams are on the files an
    earlier logger had, when that logger ran with the same working
    directory and its three readings of the clock showed the dates that
    the three readings of this construction show. *)
Theorem second_logger_appends (b : bool) (w : World) :
  cwd_exists w = true ->
  construction_clock_defined w = true ->
  node_at w (log_dir b w) = Some Dir ->
  let st := final (Logger_ctor b (fresh w)) in
  returns (Logger_ctor b (fresh w)) = true /\
  (forall p n, fs w !! p = Some n -> fs (world st) !! p = Some n) /\
  (forall c p content message,
     assoc (member c (self st)) = Some p -> file_content w p = Some content ->
     localtime_defined (utc_offset (world st)) (reading (world st) 0) = true ->
     file_content (world st) p = Some content /\
     file_content (world (final (write_line_on c message st))) p
       = Some (content ++ time_reading (world st) 0 ++ " " ++ message ++ String "010" "")) /\
  (forall w0 c p,
     returns (Logger_ctor b (fresh w0)) = true -> cwd w0 = cwd w ->
     date_reading w0 0 = date_reading w 0 ->
     date_reading w0 1 = date_reading w 1 ->
     date_reading w0 2 = date_reading w 2 ->
     assoc (member c (self (final (Logger_ctor b (fresh w0))))) = Some p ->
     is_open (member c (self st)) = true ->
     assoc (member c (self st)) = Some p).
Proof.
  intros _ _ Hdir st.
  assert (Hret : returns (Logger_ctor b (fresh w)) = true).
  { rewrite Logger_ctor_returns_iff, fs_create_directories_existing; [reflexivity | exact Hdir]. }
  split; [exact Hret|].
  split; [intros p n; apply (Logger_ctor_preserves b w p n Hret)|].
  split.
  - intros c p content message Hp Hc _.
    assert (Hc' : file_content (world st) p = Some content).
    { unfold file_content in Hc |- *.
      destruct (fs w !! p) as [[|content']|] eqn:Hfs; try discriminate.
      subst st. rewrite (Logger_ctor_preserves b w p _ Hret Hfs). exact Hc. }
    split; [exact Hc'|].
    change (String "010" "") with newline.
    apply write_line_file; [|exact Hp | exact Hc'].
    apply (Logger_ctor_establishes_inv b w). apply returns_final, Hret.
  - intros w0 c p Hret0 Hcwd Hd0 Hd1 Hd2 Hp0 Hopen.
    rewrite (Logger_ctor_member b w0 c Hret0) in Hp0.
    subst st. rewrite (Logger_ctor_member b w c Hret) in Hopen |- *.
    rewrite is_open_opened in Hopen. rewrite Hopen. cbn [opened assoc].
    destruct (can_open _ _) in Hp0; cbn [opened assoc] in Hp0; [|discriminate].
    injection Hp0 as <-. f_equal.
    unfold log_dir. rewrite Hcwd.
    destruct c; unfold channel_path; rewrite ?Hd0, ?Hd1, ?Hd2; reflexivity.
Qed.

(** The theorem on the demo machine, with a clock that advances by one
    second at each reading: [main] runs there once from midnight, and a
    logger constructed afterwards, seven readings later on the same day,
    is on the first logger's info file and writes after its two entries. *)
Lemma second_logger_appends_witness :
  let w0 := demo_world 0 1 allow allow in
  let w := world (final (program_main (fresh w0))) in
  let st := final (Logger_ctor false (fresh w)) in
  let p := ["home"; "me"; "log"; "1970-01-01.log"] in
  let content := "00:00:03 Hello, this is a test, " ++ String "010"
                   "00:00:06 This is the second line of the file." in
  cwd_exists w = true /\
  construction_clock_defined w = true /\
  node_at w (log_dir false w) = Some Dir /\
  returns (Logger_ctor false (fresh w0)) = true /\
  assoc (member Info (self (final (Logger_ctor false (fresh w0))))) = Some p /\
  reading w0 0 <> reading w 0 /\
  assoc (member Info (self st)) = Some p /\
  file_content w p = Some content /\
  file_content (world (final (write_line_on Info "build started" st))) p
    = Some (content ++ "00:00:10 build started" ++ String "010" "").
Proof.
  intros w0 w st p content.
  assert (Hcwd : cwd_exists w = true) by (vm_compute; reflexivity).
  assert (Hclock : construction_clock_defined w = true) by (vm_compute; reflexivity).
  assert (Hdir : node_at w (log_dir false w) = Some Dir) by (vm_compute; reflexivity).
  assert (Hret0 : returns (Logger_ctor false (fresh w0)) = true) by (vm_compute; reflexivity).
  assert (Hp0 : assoc (member Info (self (final (Logger_ctor false (fresh w0))))) = Some p)
    by (vm_compute; reflexivity).
  assert (Hc : file_content w p = Some content) by (vm_compute; reflexivity).
  assert (Hopen : is_open (member Info (self st)) = true) by (vm_compute; reflexivity).
  destruct (second_logger_appends false w Hcwd Hclock Hdir) as (_ & _ & Happend & Hsame).
  assert (Hp : assoc (member Info (self st)) = Some p).
  { apply (Hsame w0 Info p Hret0); try exact Hp0; try exact Hopen; vm_compute; reflexivity. }
  split; [exact Hcwd|]. split; [exact Hclock|]. split; [exact Hdir|].
  split; [exact Hret0|]. split; [exact Hp0|].
  split; [vm_compute; discriminate|]. split; [exact Hp|]. split; [exact Hc|].
  assert (Hnow : localtime_defined (utc_offset (world st)) (reading (world st) 0) = true)
    by (vm_compute; reflexivity).
  destruct (Happend Info p content "build started" Hp Hc Hnow) as [_ Hline].
  fold st in Hline. rewrite Hline. vm_compute. reflexivity.
Defined.

(* ===================================================================== *)
(** * Further properties of the code *)
(* ===================================================================== *)

(** ** The three files are three different files *)

Lemma split_at_first_space (s : string) : forall t u v,
  has_space s = false -> has_space t = false ->
  s ++ String " " u = t ++ String " " v -> u = v.
Proof.
  induction s as [|a s IH]; intros [|b t] u v Hs Ht Heq.
  - injection Heq as ->. reflexivity.
  - change (String " " u = String b (t ++ String " " v)) in Heq.
    injection Heq as <- _. cbn in Ht. discriminate.
  - change (String a (s ++ String " " u) = String " " v) in Heq.
    injection Heq as -> _. cbn in Hs. discriminate.
  - change (String a (s ++ String " " u) = String b (t ++ String " " v)) in Heq.
    injection Heq as _ Heq. cbn [has_space] in Hs, Ht.
    apply orb_false_iff in Hs as [_ Hs]. apply orb_false_iff in Ht as [_ Ht].
    apply (IH t u v Hs Ht Heq).
Qed.

Lemma file_name_distinct_text (s t : string) (c c' : channel) :
  has_space s = false -> has_space t = false ->
  c <> c' -> file_name c s <> file_name c' t.
Proof.
  intros Hs Ht Hne Heq.
  destruct c, c'; try congruence; cbn [file_name] in Heq.
  - revert Heq. apply (file_name_Info_other_text s t Warning Hs Ht). discriminate.
  - revert Heq. apply (file_name_Info_other_text s t Error Hs Ht). discriminate.
  - symmetry in Heq. revert Heq.
    apply (file_name_Info_other_text t s Warning Ht Hs). discriminate.
  - apply (split_at_first_space s t _ _ Hs Ht) in Heq. discriminate.
  - symmetry in Heq. revert Heq.
    apply (file_name_Info_other_text t s Error Ht Hs). discriminate.
  - apply (split_at_first_space s t _ _ Hs Ht) in Heq. discriminate.
Qed.

Lemma channel_path_distinct (dir : list string) (w : World) (c c' : channel) :
  c <> c' -> channel_path dir w c <> channel_path dir w c'.
Proof.
  intros Hne Heq. rewrite !channel_path_file_name in Heq.
  apply path_div_inj in Heq. revert Heq.
  apply file_name_distinct_text; [apply date_reading_no_space.. | exact Hne].
Qed.

(** X4.  After construction no two streams are on the same file, whatever
    the clock read: the names differ even when the dates do. *)
Theorem streams_on_distinct_files (b : bool) (w : World) (c c' : channel)
    (p p' : list string) :
  returns (Logger_ctor b (fresh w)) = true ->
  let st := final (Logger_ctor b (fresh w)) in
  c <> c' ->
  assoc (member c (self st)) = Some p ->
  assoc (member c' (self st)) = Some p' ->
  p <> p'.
Proof.
  intros Hret st Hne Hp Hp'. subst st.
  rewrite (Logger_ctor_member b w c Hret) in Hp.
  rewrite (Logger_ctor_member b w c' Hret) in Hp'.
  destruct (can_open _ _) in Hp; cbn [opened assoc] in Hp; [|discriminate].
  destruct (can_open _ _) in Hp'; cbn [opened assoc] in Hp'; [|discriminate].
  injection Hp as <-. injection Hp' as <-. apply channel_path_distinct, Hne.
Qed.

(** The theorem on the demo machine, with midnight between the readings. *)
Lemma streams_on_distinct_files_witness :
  let w := demo_world 86399 1 allow allow in
  let st := final (Logger_ctor false (fresh w)) in
  returns (Logger_ctor false (fresh w)) = true /\
  Warning <> Error /\
  assoc (member Warning (self st)) = Some ["home"; "me"; "log"; "1970-01-02 Warnings.log"] /\
  assoc (member Error (self st)) = Some ["home"; "me"; "log"; "1970-01-02 Errors.log"] /\
  ["home"; "me"; "log"; "1970-01-02 Warnings.log"]
    <> ["home"; "me"; "log"; "1970-01-02 Errors.log"].
Proof.
  intros w st.
  assert (H : returns (Logger_ctor false (fresh w)) = true) by (vm_compute; reflexivity).
  assert (Hne : Warning <> Error) by discriminate.
  assert (H1 : assoc (member Warning (self st))
               = Some ["home"; "me"; "log"; "1970-01-02 Warnings.log"])
    by (vm_compute; reflexivity).
  assert (H2 : assoc (member Error (self st))
               = Some ["home"; "me"; "log"; "1970-01-02 Errors.log"])
    by (vm_compute; reflexivity).
  split; [exact H|]. split; [exact Hne|]. split; [exact H1|]. split; [exact H2|].
  apply (streams_on_distinct_files false w Warning Error _ _ H Hne H1 H2).
Defined.

(** ** A file is the history of the writes on its channel *)

Section History.

Implicit Types (w : World) (st : State) (l : Logger) (p q : list string) (c : channel).

Lemma string_app_nil_r (s : string) : s ++ "" = s.
Proof.
  induction s as [|a s IH]; [reflexivity|].
  change (String a (s ++ "") = String a s). rewrite IH. reflexivity.
Qed.








Lemma run_call_text k st :
  run_call k st =
  match call_text k with
  | Some (c, text) => write_on c text st
  | None => Logger_dtor st
  end.
Proof.
  destruct k as [c message|c message|]; cbn [run_call call_text]; try reflexivity.
  rewrite write_line_on_eq. reflexivity.
Qed.

Lemma Logger_dtor_final st :
  Logger_dtor st =
  Returned tt {| self := Logger_after_dtor (self st); world := world st |}.
Proof. apply Logger_dtor_eq. Qed.



End History.



(** ** Every write is accounted for *)

Section Accounting.

Implicit Types (w : World) (st : State) (l : Logger) (p q : list string) (c : channel).



End Accounting.



(** ** Nothing is lost *)

Section Growth.

Implicit Types (w : World) (st : State) (l : Logger) (p q : list string) (c : channel).

Lemma append_to_grows w p text q content :
  file_content w q = Some content ->
  exists suffix, file_content (append_to p text w) q = Some (content ++ suffix).
Proof.
  intros Hq. destruct (decide (q = p)) as [->|Hne].
  - exists text. apply file_content_append_to, Hq.
  - exists "". rewrite string_app_nil_r. unfold file_content.
    rewrite append_to_lookup_other by exact Hne. exact Hq.
Qed.

Lemma append_to_none w p text q :
  fs (append_to p text w) !! q = None <-> fs w !! q = None.
Proof.
  unfold append_to. destruct (fs w !! p) as [[|content]|] eqn:Hp; try reflexivity.
  cbn [set_fs fs]. destruct (decide (p = q)) as [->|Hne].
  - rewrite lookup_insert_eq, Hp. split; discriminate.
  - rewrite lookup_insert_ne by exact Hne. reflexivity.
Qed.

Lemma write_on_grows c' text st st1 :
  Logger_inv st -> write_on c' text st = Returned tt st1 ->
  (forall q content, file_content (world st) q = Some content ->
     exists suffix, file_content (world st1) q = Some (content ++ suffix)) /\
  (forall q, fs (world st1) !! q = None <-> fs (world st) !! q = None) /\
  (forall q, fs (world st) !! q = Some Dir -> fs (world st1) !! q = Some Dir).
Proof.
  intros Hinv H1.
  destruct (assoc (member c' (self st))) as [p'|] eqn:Hp'.
  - destruct (Hinv c' p' Hp') as [Hgood _].
    rewrite (write_on_open c' text st p' Hp' Hgood) in H1. injection H1 as <-.
    cbn [world]. split; [|split].
    + intros q content Hq.
      destruct (append_to_grows (tick (world st)) p' (time_reading (world st) 0) q content Hq)
        as [s1 Hs1].
      destruct (append_to_grows _ p' (" " ++ text) q _ Hs1) as [s2 Hs2].
      exists (s1 ++ s2). rewrite <- string_app_assoc. exact Hs2.
    + intros q. rewrite !append_to_none. reflexivity.
    + intros q Hq. apply append_to_preserves_dir, append_to_preserves_dir. exact Hq.
  - rewrite write_on_not_open in H1 by (unfold is_open; rewrite Hp'; reflexivity).
    injection H1 as <-. cbn [world]. split; [|split].
    + intros q content Hq. exists "". rewrite string_app_nil_r. exact Hq.
    + reflexivity.
    + auto.
Qed.

Lemma run_calls_grow ks : forall st,
  Logger_inv st ->
  (forall q content, file_content (world st) q = Some content ->
     exists suffix,
       file_content (world (final (run_calls ks st))) q = Some (content ++ suffix)) /\
  (forall q, fs (world (final (run_calls ks st))) !! q = None <-> fs (world st) !! q = None) /\
  (forall q, fs (world st) !! q = Some Dir ->
     fs (world (final (run_calls ks st))) !! q = Some Dir).
Proof.
  induction ks as [|k ks IH]; intros st Hinv.
  - cbn [run_calls ret final]. split; [|split; [reflexivity | auto]].
    intros q content Hq. exists "". rewrite string_app_nil_r. exact Hq.
  - destruct (run_call_returns k st) as [st1 H1].
    rewrite (run_calls_cons k ks st st1 H1).
    pose proof (run_call_preserves_inv k st st1 H1 Hinv) as Hinv1.
    destruct (IH st1 Hinv1) as (IHg & IHn & IHd).
    assert (Hstep :
      (forall q content, file_content (world st) q = Some content ->
         exists suffix, file_content (world st1) q = Some (content ++ suffix)) /\
      (forall q, fs (world st1) !! q = None <-> fs (world st) !! q = None) /\
      (forall q, fs (world st) !! q = Some Dir -> fs (world st1) !! q = Some Dir)).
    { rewrite run_call_text in H1. destruct (call_text k) as [[c' text]|].
      - apply (write_on_grows c' text st st1 Hinv H1).
      - rewrite Logger_dtor_final in H1. injection H1 as <-. cbn [world].
        split; [|split; [reflexivity | auto]].
        intros q content Hq. exists "". rewrite string_app_nil_r. exact Hq. }
    destruct Hstep as (Hg & Hn & Hd). split; [|split].
    + intros q content Hq. destruct (Hg q content Hq) as [s1 Hs1].
      destruct (IHg q _ Hs1) as [s2 Hs2].
      exists (s1 ++ s2). rewrite <- string_app_assoc. exact Hs2.
    + intros q. rewrite IHn. apply Hn.
    + intros q Hq. apply IHd, Hd, Hq.
Qed.

End Growth.

(** X3.  A logger never loses what a file holds: whatever a file of the
    machine contained before construction is still the beginning of its
    content after construction and any sequence of calls.  The calls after
    construction create no path and remove none, and every directory stays
    a directory. *)
Theorem files_only_grow (b : bool) (w : World) (ks : list call) :
  returns (Logger_ctor b (fresh w)) = true ->
  let st := final (Logger_ctor b (fresh w)) in
  let fin := final (run_calls ks st) in
  (forall q content, file_content w q = Some content ->
     exists suffix, file_content (world fin) q = Some (content ++ suffix)) /\
  (forall q, fs (world fin) !! q = None <-> fs (world st) !! q = None) /\
  (forall q, fs w !! q = Some Dir -> fs (world fin) !! q = Some Dir).
Proof.
  intros Hret st fin.
  assert (Hinv : Logger_inv st).
  { apply (Logger_ctor_establishes_inv b w). apply returns_final, Hret. }
  destruct (run_calls_grow ks st Hinv) as (Hg & Hn & Hd).
  split; [|split; [exact Hn|]].
  - intros q content Hq. apply Hg.
    unfold file_content in Hq |- *.
    destruct (fs w !! q) as [[|content']|] eqn:Hfs; try discriminate.
    subst st. rewrite (Logger_ctor_preserves b w q _ Hret Hfs). exact Hq.
  - intros q Hq. apply Hd. subst st. apply (Logger_ctor_preserves b w q _ Hret Hq).
Qed.

(** The theorem on the demo machine after [main] has run there once: a
    second run keeps the first run's lines at the head of the info file. *)
Lemma files_only_grow_witness :
  let w := world (final (program_main (fresh (demo_world 86399 0 allow allow)))) in
  let content := "23:59:59 Hello, this is a test, " ++ newline
                 ++ "23:59:59 This is the second line of the file." in
  returns (Logger_ctor false (fresh w)) = true /\
  file_content w ["home"; "me"; "log"; "1970-01-01.log"] = Some content /\
  exists suffix,
    file_content (world (final (run_calls main_calls (final (Logger_ctor false (fresh w))))))
      ["home"; "me"; "log"; "1970-01-01.log"] = Some (content ++ suffix).
Proof.
  intros w content.
  assert (H : returns (Logger_ctor false (fresh w)) = true) by (vm_compute; reflexivity).
  assert (Hc : file_content w ["home"; "me"; "log"; "1970-01-01.log"] = Some content)
    by (vm_compute; reflexivity).
  split; [exact H|]. split; [exact Hc|].
  destruct (files_only_grow false w main_calls H) as (Hg & _).
  apply (Hg _ _ Hc).
Defined.

(** ** [main] *)

Section Main.

Implicit Types (w : World) (st : State).




End Main.



(** ** What construction adds to the machine *)

Section Footprint.

Implicit Types (w : World) (st : State) (p q dir : list string).

(** A node the walk adds is a directory on the way to the target. *)
Lemma create_directories_from_new rest : forall base st p n,
  fs (world (final (create_directories_from base rest st))) !! p = Some n ->
  fs (world st) !! p = Some n \/
  (n = Dir /\ exists below, (base ++ rest = p ++ below)%list).
Proof.
  induction rest as [|name rest IH]; intros base st p n Hp; [left; exact Hp|].
  rewrite create_directories_from_cons in Hp.
  assert (Hsnoc : forall below,
            ((base /: name) ++ rest = p ++ below -> base ++ name :: rest = p ++ below)%list).
  { intros below <-. unfold path_div. rewrite <- app_assoc. reflexivity. }
  destruct (fs (world st) !! (base /: name)) as [[|content]|] eqn:Hnode.
  - destruct (IH _ _ _ _ Hp) as [H|(-> & below & H)]; [left; exact H|].
    right. split; [reflexivity | exists below; apply Hsnoc, H].
  - left. exact Hp.
  - destruct (may_mkdir (world st) (base /: name)); [|left; exact Hp].
    destruct (IH _ _ _ _ Hp) as [H|(-> & below & H)].
    + cbn [world set_fs fs] in H. destruct (decide (base /: name = p)) as [<-|Hne].
      * rewrite lookup_insert_eq in H. injection H as <-.
        right. split; [reflexivity|]. exists rest. apply Hsnoc. reflexivity.
      * rewrite lookup_insert_ne in H by exact Hne. left. exact H.
    + right. split; [reflexivity | exists below; apply Hsnoc, H].
Qed.

Lemma fs_create_directories_new dir st p n :
  fs (world (final (fs_create_directories dir st))) !! p = Some n ->
  fs (world st) !! p = Some n \/ (n = Dir /\ exists below, (dir = p ++ below)%list).
Proof.
  unfold fs_create_directories, bind, get_world.
  destruct (node_at (world st) dir) as [[|content]|];
    first [ apply (create_directories_from_new dir [] st p n) | intros H; left; exact H ].
Qed.

End Footprint.

(** X5.  Everything a construction that returns adds to the file system is
    either a directory on the way to the log directory (the log directory
    or one above it), or an empty file on which one of the three streams
    is now open.  Nothing else appears, and no file is created with
    content. *)
Theorem ctor_footprint (b : bool) (w : World) (p : list string) (n : node) :
  returns (Logger_ctor b (fresh w)) = true ->
  let st := final (Logger_ctor b (fresh w)) in
  fs (world st) !! p = Some n ->
  fs w !! p = Some n \/
  (n = Dir /\ exists below, log_dir b w = (p ++ below)%list) \/
  (n = File "" /\ exists c, assoc (member c (self st)) = Some p).
Proof.
  intros Hret st Hp.
  destruct (Logger_ctor_final b w Hret) as (Hd & _ & Hst). subst st.
  rewrite Hst in Hp. cbn [world] in Hp.
  apply createLogs_world_new in Hp as [Hp|(-> & c & -> & Hok)].
  - destruct (fs_create_directories_new (log_dir b w) (fresh w) p n Hp) as [H|H];
      [left; exact H | right; left; exact H].
  - right. right. split; [reflexivity|]. exists c.
    rewrite Hst. cbn [self]. rewrite member_createLogs_members, Hok. reflexivity.
Qed.

(** The theorem on the demo machine: the log directory is new, and so is
    the empty info file. *)
Lemma ctor_footprint_witness :
  let w := demo_world 86399 0 allow allow in
  let st := final (Logger_ctor false (fresh w)) in
  returns (Logger_ctor false (fresh w)) = true /\
  fs (world st) !! ["home"; "me"; "log"; "1970-01-01.log"] = Some (File "") /\
  (fs w !! ["home"; "me"; "log"; "1970-01-01.log"] = Some (File "") \/
   (File "" = Dir /\ exists below,
      log_dir false w = (["home"; "me"; "log"; "1970-01-01.log"] ++ below)%list) \/
   (File "" = File "" /\
    exists c, assoc (member c (self st)) = Some ["home"; "me"; "log"; "1970-01-01.log"])).
Proof.
  intros w st.
  assert (H : returns (Logger_ctor false (fresh w)) = true) by (vm_compute; reflexivity).
  assert (Hp : fs (world st) !! ["home"; "me"; "log"; "1970-01-01.log"] = Some (File ""))
    by (vm_compute; reflexivity).
  split; [exact H|]. split; [exact Hp|].
  apply (ctor_footprint false w _ _ H Hp).
Defined.

(** ** Construction where [log] is a file *)

Section NotADirectory.

Implicit Types (w : World) (st : State) (p q dir : list string).

Lemma create_directories_from_file rest : forall base st content,
  rest <> [] ->
  fs (world st) !! (base ++ rest)%list = Some (File content) ->
  returns (create_directories_from base rest st) = false.
Proof.
  induction rest as [|name rest IH]; intros base st content Hne Hfile; [congruence|].
  rewrite create_directories_from_cons.
  assert (Hpath : (base ++ name :: rest = (base /: name) ++ rest)%list)
    by (unfold path_div; rewrite <- app_assoc; reflexivity).
  destruct rest as [|name' rest].
  - unfold path_div. rewrite Hfile. reflexivity.
  - destruct (fs (world st) !! (base /: name)) as [[|content']|] eqn:Hnode.
    + apply (IH _ _ content); [discriminate|]. rewrite <- Hpath. exact Hfile.
    + reflexivity.
    + destruct (may_mkdir (world st) (base /: name)); [|reflexivity].
      apply (IH _ _ content); [discriminate|]. cbn [world set_fs fs].
      rewrite lookup_insert_ne; [rewrite <- Hpath; exact Hfile|].
      unfold path_div. intros Heq. apply (f_equal (@List.length string)) in Heq.
      rewrite !length_app in Heq. cbn [List.length] in Heq. lia.
Qed.

End NotADirectory.

(** X6.  Where the path of the log directory names a regular file,
    construction throws for either value of the flag; the file keeps its
    content and no stream is opened. *)
Theorem ctor_throws_on_file (b : bool) (w : World) (content : string) :
  fs w !! log_dir b w = Some (File content) ->
  let o := Logger_ctor b (fresh w) in
  returns o = false /\
  fs (world (final o)) !! log_dir b w = Some (File content) /\
  self (final o) = Logger_members_default.
Proof.
  intros Hfile o. subst o.
  assert (Hdir : exists base, log_dir b w = base /: "log") by (destruct b; eauto).
  destruct Hdir as [base Hbase].
  assert (Hthrow : returns (fs_create_directories (log_dir b w) (fresh w)) = false).
  { unfold fs_create_directories, bind, get_world. cbn [world fresh].
    rewrite Hbase, node_at_snoc, <- Hbase, Hfile.
    apply (create_directories_from_file (log_dir b w) [] (fresh w) content).
    - rewrite Hbase. unfold path_div. destruct base; discriminate.
    - exact Hfile. }
  destruct (fs_create_directories (log_dir b w) (fresh w)) as [[] st1|e st1] eqn:Hrun;
    [discriminate|].
  rewrite (Logger_ctor_throws b w e st1 Hrun). cbn [final returns].
  destruct (fs_create_directories_frame (log_dir b w) (fresh w)) as [Hs Hd].
  rewrite Hrun in Hs, Hd. cbn [final fresh self world] in Hs, Hd.
  destruct Hd as (_ & _ & _ & _ & _ & _ & _ & Hkeep & _).
  split; [reflexivity|]. split; [apply Hkeep, Hfile | exact Hs].
Qed.

(** The theorem on the demo machine with a file [/home/me/build/log]. *)
Lemma ctor_throws_on_file_witness :
  let w0 := demo_world 86399 0 allow allow in
  let w := set_fs (<[ ["home"; "me"; "build"; "log"] := File "notes" ]> (fs w0)) w0 in
  fs w !! log_dir true w = Some (File "notes") /\
  returns (Logger_ctor true (fresh w)) = false.
Proof.
  intros w0 w.
  assert (H : fs w !! log_dir true w = Some (File "notes")) by (vm_compute; reflexivity).
  split; [exact H|].
  apply (ctor_throws_on_file true w "notes" H).
Defined.

(** ** The flag at the root directory *)

(** X7.  The two values of the constructor's flag select the same
    directory exactly when the working directory is the root, whose
    parent is the root itself; anywhere else they select two different
    directories. *)
Theorem flag_matters_below_root (st : State) :
  resolve_log_dir true st = resolve_log_dir false st <-> cwd (world st) = [].
Proof.
  rewrite !resolve_log_dir_eq. unfold log_dir, parent_path, path_div. split.
  - intros [= Heq]. apply (f_equal (@List.length string)) in Heq.
    rewrite !length_app in Heq. cbn [List.length] in Heq.
    destruct (cwd (world st)) as [|a l] using rev_ind; [reflexivity|].
    rewrite removelast_last, length_app in Heq. cbn [List.length] in Heq. lia.
  - intros ->. reflexivity.
Qed.

(** ** The characters of a date *)

Section DateCharacters.

Lemma all_chars_app (test : ascii -> bool) (s t : string) :
  all_chars test (s ++ t) = all_chars test s && all_chars test t.
Proof.
  induction s as [|a s IH]; [reflexivity|].
  change (all_chars test (String a s ++ t)) with (test a && all_chars test (s ++ t)).
  rewrite IH. cbn [all_chars]. apply andb_assoc.
Qed.

Lemma digit_char_is_digit (d : Z) : 0 <= d <= 9 -> is_digit (digit_char d) = true.
Proof.
  intros Hd.
  assert (H : d = 0 \/ d = 1 \/ d = 2 \/ d = 3 \/ d = 4 \/
              d = 5 \/ d = 6 \/ d = 7 \/ d = 8 \/ d = 9) by lia.
  repeat (destruct H as [->|H]; [reflexivity|]). subst d. reflexivity.
Qed.

Lemma dec_digits_date_chars (fuel : nat) : forall n acc,
  all_chars date_char acc = true -> all_chars date_char (dec_digits fuel n acc) = true.
Proof.
  assert (Hdigit : forall n acc, all_chars date_char acc = true ->
            all_chars date_char (String (digit_char (n mod 10)) acc) = true).
  { intros n acc Hacc. cbn [all_chars]. unfold date_char at 1.
    rewrite digit_char_is_digit, Hacc; [reflexivity|].
    pose proof (Z.mod_pos_bound n 10 ltac:(lia)). lia. }
  induction fuel as [|fuel IH]; intros n acc Hacc; cbn [dec_digits].
  - apply Hdigit, Hacc.
  - destruct (n <? 10); [apply Hdigit, Hacc | apply IH, Hdigit, Hacc].
Qed.

Lemma dec_date_chars (n : Z) : all_chars date_char (dec n) = true.
Proof.
  unfold dec, dec_nonneg. destruct (n <? 0).
  - cbn [all_chars]. rewrite dec_digits_date_chars; reflexivity.
  - apply dec_digits_date_chars. reflexivity.
Qed.

Lemma dec02_date_chars (n : Z) : all_chars date_char (dec02 n) = true.
Proof.
  unfold dec02. destruct ((0 <=? n) && (n <? 10)).
  - cbn [all_chars]. rewrite dec_date_chars. reflexivity.
  - apply dec_date_chars.
Qed.

Lemma date_text_date_chars (t : tm) :
  all_chars date_char (strftime_text date_format t) = true.
Proof.
  change (strftime_text date_format t)
    with (dec (tm_year t + 1900) ++ String "-" (dec02 (tm_mon t + 1) ++ String "-" (dec02 (tm_mday t) ++ ""))).
  rewrite all_chars_app, dec_date_chars.
  cbn [all_chars andb]. rewrite all_chars_app, dec02_date_chars.
  cbn [all_chars andb]. rewrite all_chars_app, dec02_date_chars. reflexivity.
Qed.

Lemma all_chars_weaken (test test' : ascii -> bool) (s : string) :
  (forall a, test a = true -> test' a = true) ->
  all_chars test s = true -> all_chars test' s = true.
Proof.
  intros Himp. induction s as [|a s IH]; [reflexivity|]. cbn [all_chars].
  intros [Ha Hs]%andb_true_iff. rewrite (Himp a Ha), (IH Hs). reflexivity.
Qed.

End DateCharacters.

(** X8.  At every instant at which [localtime] succeeds, in years of any
    number of digits and before the year 0 too, [currentDateFormatted]
    returns digits and hyphens only; in particular the text has no path
    separator in it, so that a file name built from it is one name in the
    log directory. *)
Theorem date_is_digits_and_hyphens (st : State) :
  localtime_defined (utc_offset (world st)) (reading (world st) 0) = true ->
  exists date st',
    currentDateFormatted st = Returned date st' /\
    all_chars date_char date = true /\
    all_chars (fun a => negb (Ascii.eqb a "/")) date = true.
Proof.
  intros _.
  exists (date_reading (world st) 0), {| self := self st; world := tick (world st) |}.
  split; [apply currentDateFormatted_eq|].
  assert (H : all_chars date_char (date_reading (world st) 0) = true).
  { unfold date_reading, format_instant, strftime.
    destruct (decide _); cbn [buffer_string]; [apply date_text_date_chars | reflexivity]. }
  split; [exact H|].
  revert H. apply all_chars_weaken. intros a Ha. unfold date_char in Ha.
  destruct (Ascii.eqb a "/") eqn:Hslash; [|reflexivity].
  apply Ascii.eqb_eq in Hslash. subst a. discriminate Ha.
Qed.

(** The theorem in the year 10000, where the date has eleven characters. *)
Lemma date_is_digits_and_hyphens_witness :
  let w := demo_world 253402300800 1 allow allow in
  localtime_defined (utc_offset w) (reading w 0) = true /\
  date_reading w 0 = "10000-01-01" /\
  exists date st',
    currentDateFormatted (fresh w) = Returned date st' /\
    all_chars date_char date = true /\
    all_chars (fun a => negb (Ascii.eqb a "/")) date = true.
Proof.
  intros w.
  assert (H : localtime_defined (utc_offset w) (reading w 0) = true)
    by (vm_compute; reflexivity).
  split; [exact H|]. split; [vm_compute; reflexivity|].
  apply (date_is_digits_and_hyphens (fresh w) H).
Defined.
